(** * StrepHit: the feature extractor of [strephit/classification/feature_extractors.py]

    A shallow embedding of the class [FeatureExtractor]: the alignment of
    frame-element chunks onto the tagger's tokens ([sentence_to_tokens]),
    the sliding-window sample builder ([process_sentence]) with its
    known/unknown vocabulary policy ([add_feature_to]), the finalizer
    ([get_features]) and the pickling pair [__getstate__]/[__setstate__].

    Python integers are [Z]; dictionaries are [gmap]; sets are [gset];
    a Python exception is a value of [exn] carried by [result].  Code
    that mutates [self] lives in a state-and-exception monad whose
    state survives a raised exception, as the attributes of a Python
    object do. *)

From stdpp Require Import base decidable option list gmap strings pretty.

Open Scope Z_scope.

#[local] Set Warnings "-clear-no-such-hyp".

(** ** Exceptions and the two monads *)

Inductive exn : Set :=
  | ValueError
  | IndexError
  | KeyError
  | UnboundLocalError.

Inductive result (A : Type) : Type :=
  | Ok (a : A)
  | Raise (e : exn).
Arguments Ok {A} a.
Arguments Raise {A} e.

Global Instance result_ret : MRet result := λ A a, Ok a.
Global Instance result_bind : MBind result := λ A B f r,
  match r with
  | Ok a => f a
  | Raise e => Raise e
  end.

(** [for x in xs: acc = body(acc, x)] for code that can raise. *)
Fixpoint for_result {A X} (body : A → X → result A) (acc : A) (xs : list X)
  : result A :=
  match xs with
  | [] => Ok acc
  | x :: xs' =>
      match body acc x with
      | Ok acc' => for_result body acc' xs'
      | Raise e => Raise e
      end
  end.

(** Computations over a mutable object of type [S]. *)
Definition M (S A : Type) : Type := S → result A * S.

Global Instance M_ret {S} : MRet (M S) := λ A a s, (Ok a, s).
Global Instance M_bind {S} : MBind (M S) := λ A B f m s,
  match m s with
  | (Ok a, s') => f a s'
  | (Raise e, s') => (Raise e, s')
  end.

Definition get_self {S} : M S S := λ s, (Ok s, s).
Definition modify_self {S} (f : S → S) : M S unit := λ s, (Ok tt, f s).
Definition lift_result {S A} (r : result A) : M S A := λ s, (r, s).

Fixpoint for_M {S A X} (body : A → X → M S A) (acc : A) (xs : list X)
  : M S A :=
  match xs with
  | [] => mret acc
  | x :: xs' => acc' ← body acc x; for_M body acc' xs'
  end.

(** ** Python sequences *)

Module Py.

Definition len {A} (l : list A) : Z := Z.of_nat (length l).

(** A negative index counts from the end; the clamped value is the one
    [l[i]] really reads. *)
Definition norm_index {A} (l : list A) (i : Z) : Z :=
  if decide (i < 0) then i + len l else i.

(** [l[i]] *)
Definition getitem {A} (l : list A) (i : Z) : result A :=
  let k := norm_index l i in
  if decide (0 ≤ k < len l) then
    match l !! Z.to_nat k with
    | Some x => Ok x
    | None => Raise IndexError
    end
  else Raise IndexError.

(** [l[i] = x] *)
Definition setitem {A} (l : list A) (i : Z) (x : A) : result (list A) :=
  let k := norm_index l i in
  if decide (0 ≤ k < len l) then Ok (<[Z.to_nat k := x]> l)
  else Raise IndexError.

(** The bound of a slice, clamped into [0 .. len l]. *)
Definition clamp {A} (l : list A) (k : Z) : nat :=
  Z.to_nat (Z.min (Z.max (norm_index l k) 0) (len l)).

(** [l[:k]] and [l[k:]] *)
Definition slice_to {A} (l : list A) (k : Z) : list A := take (clamp l k) l.
Definition slice_from {A} (l : list A) (k : Z) : list A := drop (clamp l k) l.

(** [xrange(lo, hi)] *)
Definition xrange (lo hi : Z) : list Z :=
  (λ k : nat, lo + Z.of_nat k) <$> seq 0 (Z.to_nat (hi - lo)).

(** ['%+d' % n] *)
Definition fmt_signed (n : Z) : string :=
  if decide (0 ≤ n) then "+" +:+ pretty n else pretty n.

End Py.

(** ** Tokens and the tagger *)

(** The tagger yields triples [(token, pos, lemma)]; the aligner adds a
    fourth component, the frame element.  [len(t) == 3] tells them
    apart. *)
Inductive token : Set :=
  | Tag3 (word pos lemma : string)
  | Tag4 (word pos lemma fe : string).

Global Instance token_eq_dec : EqDecision token.
Proof. solve_decision. Defined.

Definition tok0 (t : token) : string :=
  match t with Tag3 w _ _ | Tag4 w _ _ _ => w end.
Definition tok1 (t : token) : string :=
  match t with Tag3 _ p _ | Tag4 _ p _ _ => p end.
Definition tok2 (t : token) : string :=
  match t with Tag3 _ _ l | Tag4 _ _ l _ => l end.
(** [t[3]] *)
Definition tok3 (t : token) : result string :=
  match t with Tag3 _ _ _ => Raise IndexError | Tag4 _ _ _ fe => Ok fe end.
Definition tok_len (t : token) : Z :=
  match t with Tag3 _ _ _ => 3 | Tag4 _ _ _ _ => 4 end.

(** [a, b, c = t] *)
Definition unpack3 (t : token) : result (string * string * string) :=
  match t with
  | Tag3 w p l => Ok (w, p, l)
  | Tag4 _ _ _ _ => Raise ValueError
  end.

Definition of_triple (t : string * string * string) : token :=
  let '(w, p, l) := t in Tag3 w p l.

(** The two services of [TTPosTagger] the extractor calls. *)
Record Tagger : Type := {
  tag_one : string → list (string * string * string);
  tokenize : string → list string;
}.

(** ** The extractor object *)

Abbreviation Sample := (gmap string string).

Record FeatureExtractor : Type := mkFeatureExtractor {
  language : string;
  tagger : Tagger;
  window_width : Z;
  collapse_fes : bool;
  unk_feature : string;
  samples : list (Sample * string);
  vocabulary : gset string;
  labels : gset string;
}.

Definition set_samples (v : list (Sample * string)) (self : FeatureExtractor) :=
  mkFeatureExtractor (language self) (tagger self) (window_width self)
    (collapse_fes self) (unk_feature self) v (vocabulary self) (labels self).
Definition set_vocabulary (v : gset string) (self : FeatureExtractor) :=
  mkFeatureExtractor (language self) (tagger self) (window_width self)
    (collapse_fes self) (unk_feature self) (samples self) v (labels self).
Definition set_labels (v : gset string) (self : FeatureExtractor) :=
  mkFeatureExtractor (language self) (tagger self) (window_width self)
    (collapse_fes self) (unk_feature self) (samples self) (vocabulary self) v.
Definition set_unk_feature (v : string) (self : FeatureExtractor) :=
  mkFeatureExtractor (language self) (tagger self) (window_width self)
    (collapse_fes self) v (samples self) (vocabulary self) (labels self).
Definition set_collapse_fes (v : bool) (self : FeatureExtractor) :=
  mkFeatureExtractor (language self) (tagger self) (window_width self)
    v (unk_feature self) (samples self) (vocabulary self) (labels self).

(** The FE map, in the order [fes.iteritems()] yields its entries; a
    chunk is a text or [None]. *)
Abbreviation FEs := (list (string * option string)).

(** The gazetteer: chunk -> list of features. *)
Abbreviation Gazetteer := (gmap string (list string)).

(** The pickled state: [(language, unk_feature, window_width, samples,
    vocabulary, labels, collapse_fes)]. *)
Abbreviation Pickled :=
  (string * string * Z * list (Sample * string) * gset string * gset string
   * bool)%type.

Section Extractor.

(** [unicode.lower] *)
Variable lower : string → string.
(** The constructor of the tagger for a language. *)
Variable TTPosTagger : string → Tagger.
(** [DictVectorizer().fit_transform], with the matrix it builds. *)
Variable Matrix : Type.
Variable fit_transform : list Sample → Matrix.

(** *** [start] and [__init__] *)

Definition start (self : FeatureExtractor) : FeatureExtractor :=
  set_labels ∅ (set_vocabulary ∅ (set_samples [] self)).

Definition init (language : string) (window_width : Z) (collapse_fes : bool)
  : FeatureExtractor :=
  start (mkFeatureExtractor language (TTPosTagger language) window_width
           collapse_fes "UNK" [] ∅ ∅).

(** *** [sentence_to_tokens] *)

(** The [while i < len(tagged)] loop.  [rest] is [tagged[i:]], so the
    loop test is [rest ≠ []] and [tagged[i]] is its head.  The result
    is the pair [(found, i)] the loop leaves behind. *)
Fixpoint scan_from (fe_tokens : list string) (rest : list token) (i j : Z)
  : result (bool * Z) :=
  match rest with
  | [] => Ok (false, i)
  | t :: rest' =>
      fj ← Py.getitem fe_tokens j;
      if decide (lower fj = lower (tok0 t)) then
        let j := j + 1 in
        if decide (j = Py.len fe_tokens) then Ok (true, i)
        else scan_from fe_tokens rest' (i + 1) j
      else
        scan_from fe_tokens rest' (i + 1) 0
  end.

Definition scan (fe_tokens : list string) (tagged : list token)
  : result (bool * Z) :=
  scan_from fe_tokens tagged 0 0.

(** The body of [for i in xrange(position, position + len(fe_tokens))]
    of the split mode. *)
Definition split_step (fe : string) (tagged : list token) (i : Z)
  : result (list token) :=
  t ← Py.getitem tagged i;
  '(token, pos, _) ← unpack3 t;
  Py.setitem tagged i (Tag4 token pos "ENT" fe).

(** The body of [for fe, chunk in fes.iteritems()]. *)
Definition align_fe (self : FeatureExtractor) (tagged : list token)
    (entry : string * option string) : result (list token) :=
  let '(fe, chunk) := entry in
  match chunk with
  | None => Ok tagged
  | Some chunk =>
      let fe_tokens := tokenize (tagger self) chunk in
      if decide (fe_tokens = []) then Ok tagged
      else
        '(found, i) ← scan fe_tokens tagged;
        if (found : bool) then
          let position := i - Py.len fe_tokens + 1 in
          pos ← (if decide (Py.len fe_tokens > 1) then Ok "ENT"
                 else t ← Py.getitem tagged position; Ok (tok1 t));
          if collapse_fes self then
            Ok (Py.slice_to tagged position
                  ++ [Tag4 chunk pos chunk fe]
                  ++ Py.slice_from tagged (position + Py.len fe_tokens))
          else
            for_result (split_step fe) tagged
              (Py.xrange position (position + Py.len fe_tokens))
        else Ok tagged
  end.

Definition sentence_to_tokens (self : FeatureExtractor) (sentence : string)
    (fes : FEs) : result (list token) :=
  let tagged := of_triple <$> tag_one (tagger self) sentence in
  for_result (align_fe self) tagged fes.

(** *** [process_sentence] *)

Definition add_feature_to (add_unknown : bool) (sample : Sample)
    (feature_name feature_value : string) : M FeatureExtractor Sample :=
  self ← get_self;
  if add_unknown || bool_decide (feature_value ∈ vocabulary self) then
    _ ← modify_self (λ self,
           set_vocabulary ({[feature_value]} ∪ vocabulary self) self);
    mret (<[feature_name := feature_value]> sample)
  else
    mret (<[feature_name := unk_feature self]> sample).

(** [for feat in gazetteer.get(word, []): sample[name] = feat] *)
Definition add_gazetteer (gazetteer : Gazetteer) (sample : Sample)
    (name word : string) : Sample :=
  foldl (λ sample feat, <[name := feat]> sample) sample
    (default [] (gazetteer !! word)).

(** The body of the inner loop.  The accumulator is the sample under
    construction together with the loop variable [i], which Python
    keeps after the loop. *)
Definition window_step (add_unknown : bool) (gazetteer : Gazetteer)
    (tagged : list token) (position : Z) (acc : Sample * option Z) (i : Z)
  : M FeatureExtractor (Sample * option Z) :=
  let sample := acc.1 in
  let rel := i - position in
  t ← lift_result (Py.getitem tagged i);
  sample ← add_feature_to add_unknown sample ("TERM" +:+ Py.fmt_signed rel) (tok0 t);
  sample ← add_feature_to add_unknown sample ("POS" +:+ Py.fmt_signed rel) (tok1 t);
  sample ← add_feature_to add_unknown sample ("LEMMA" +:+ Py.fmt_signed rel) (tok2 t);
  mret (add_gazetteer gazetteer sample ("GAZ" +:+ Py.fmt_signed rel) (tok0 t),
        Some i).

(** The body of [for position in xrange(len(tagged))].  [i] is the
    inner loop variable as the previous positions left it ([None]
    while it is unbound). *)
Definition position_step (add_unknown : bool) (gazetteer : Gazetteer)
    (tagged : list token) (i : option Z) (position : Z)
  : M FeatureExtractor (option Z) :=
  self ← get_self;
  let sample : Sample := {[ "unk" := unk_feature self ]} in
  '(sample, i) ← for_M (window_step add_unknown gazetteer tagged position)
                   (sample, i)
                   (Py.xrange (Z.max (position - window_width self) 0)
                      (Z.min (position + window_width self + 1)
                         (Py.len tagged)));
  i' ← lift_result (match i with
                    | Some i => Ok i
                    | None => Raise UnboundLocalError
                    end);
  t ← lift_result (Py.getitem tagged i');
  label ← lift_result (if decide (tok_len t = 3) then Ok "O" else tok3 t);
  _ ← modify_self (λ self, set_labels ({[label]} ∪ labels self) self);
  _ ← modify_self (λ self,
         set_samples (samples self ++ [(sample, label)]) self);
  mret i.

Definition process_sentence (sentence : string) (fes : FEs)
    (add_unknown : bool) (gazetteer : Gazetteer) : M FeatureExtractor unit :=
  self ← get_self;
  tagged ← lift_result (sentence_to_tokens self sentence fes);
  _ ← for_M (position_step add_unknown gazetteer tagged) None
        (Py.xrange 0 (Py.len tagged));
  mret tt.

(** *** [get_features] *)

(** [zip] applied to the unpacked pairs: the two columns, or nothing
    at all when there is no pair, in which case the unpacking
    [samples, labels = ...] raises [ValueError]. *)
Definition zip_star {A B} (pairs : list (A * B)) : list A * list B + unit :=
  match pairs with
  | [] => inr tt
  | _ => inl (pairs.*1, pairs.*2)
  end.

(** [{label: i for i, label in enumerate(labels)}] *)
Definition label_index_of (labels : gset string) : gmap string Z :=
  let ls := elements labels in
  list_to_map (zip ls (Py.xrange 0 (Py.len ls))).

Definition get_features (self : FeatureExtractor)
  : result (Matrix * list Z) :=
  match zip_star (samples self) with
  | inr _ => Raise ValueError
  | inl (samples, labels') =>
      let features := fit_transform samples in
      let label_index := label_index_of (labels self) in
      labels' ← for_result (λ acc label,
                   match label_index !! label with
                   | Some i => Ok (acc ++ [i])
                   | None => Raise KeyError
                   end) [] labels';
      Ok (features, labels')
  end.

(** *** [__getstate__] and [__setstate__] *)

Definition getstate (self : FeatureExtractor) : Pickled :=
  (language self, unk_feature self, window_width self, samples self,
   vocabulary self, labels self, collapse_fes self).

Definition setstate (state : Pickled) : FeatureExtractor :=
  let '(language, unk_feature, window_width, samples, vocabulary, labels,
        collapse_fes) := state in
  let self := init language window_width true in
  let self := set_samples samples self in
  let self := set_vocabulary vocabulary self in
  let self := set_unk_feature unk_feature self in
  let self := set_collapse_fes collapse_fes self in
  set_labels labels self.

End Extractor.

(** ** A concrete tagger for the examples *)

Module Demo.

Definition lower_ascii (c : Ascii.ascii) : Ascii.ascii :=
  let n := Ascii.N_of_ascii c in
  if decide (65 ≤ n ≤ 90)%N then Ascii.ascii_of_N (n + 32) else c.

Fixpoint lower (s : string) : string :=
  match s with
  | EmptyString => EmptyString
  | String c s' => String (lower_ascii c) (lower s')
  end.

(** Tokens are the white-space separated words; every word is tagged
    ["W"] and its lemma is its lower-case form. *)
Definition demo_tagger : Tagger := {|
  tag_one s := (λ w, (w, "W", lower w)) <$> String.words s;
  tokenize s := String.words s;
|}.

Definition extractor (window_width : Z) (collapse_fes : bool)
  : FeatureExtractor :=
  init (λ _, demo_tagger) "en" window_width collapse_fes.

End Demo.

(** ** Closed forms

    What the loops of [process_sentence] compute, written without the
    monad; the theorems below relate the code to them. *)

(** The value [add_feature_to] writes for [value]. *)
Definition resolve (add_unknown : bool) (voc : gset string) (unk value : string)
  : string :=
  if add_unknown || bool_decide (value ∈ voc) then value else unk.

Definition token_values (t : token) : gset string :=
  {[tok0 t]} ∪ {[tok1 t]} ∪ {[tok2 t]}.

(** The vocabulary after the values of [ts] went through [add_feature_to]. *)
Definition learn (add_unknown : bool) (voc : gset string) (ts : list token)
  : gset string :=
  if add_unknown then voc ∪ ⋃ (token_values <$> ts) else voc.

(** ['O' if len(t) == 3 else t[3]] *)
Definition label_of (t : token) : string :=
  match t with Tag3 _ _ _ => "O" | Tag4 _ _ _ fe => fe end.

(** The four writes for the token at offset [rel]. *)
Definition token_features (add_unknown : bool) (gazetteer : Gazetteer)
    (voc : gset string) (unk : string) (sample : Sample) (rel : Z) (t : token)
  : Sample :=
  let r := resolve add_unknown voc unk in
  add_gazetteer gazetteer
    (<["LEMMA" +:+ Py.fmt_signed rel := r (tok2 t)]>
       (<["POS" +:+ Py.fmt_signed rel := r (tok1 t)]>
          (<["TERM" +:+ Py.fmt_signed rel := r (tok0 t)]> sample)))
    ("GAZ" +:+ Py.fmt_signed rel) (tok0 t).

(** The indices the inner loop visits at [position]. *)
Definition window (width n position : Z) : list Z :=
  Py.xrange (Z.max (position - width) 0) (Z.min (position + width + 1) n).

Definition window_tokens (tagged : list token) (width position : Z)
  : list token :=
  omap (λ i : Z, tagged !! Z.to_nat i) (window width (Py.len tagged) position).

(** The inner loop body on the sample alone, and the loop from any
    sample over any indices. *)
Definition sample_step (add_unknown : bool) (gazetteer : Gazetteer)
    (voc : gset string) (unk : string) (tagged : list token) (position : Z)
    (sample : Sample) (i : Z) : Sample :=
  match tagged !! Z.to_nat i with
  | Some t =>
      token_features add_unknown gazetteer voc unk sample (i - position) t
  | None => sample
  end.

Definition window_fold (add_unknown : bool) (gazetteer : Gazetteer)
    (voc : gset string) (unk : string) (tagged : list token) (position : Z)
    (sample : Sample) (indices : list Z) : Sample :=
  foldl (sample_step add_unknown gazetteer voc unk tagged position) sample
    indices.

Definition window_sample (add_unknown : bool) (gazetteer : Gazetteer)
    (voc : gset string) (unk : string) (tagged : list token) (width position : Z)
  : Sample :=
  window_fold add_unknown gazetteer voc unk tagged position
    {[ "unk" := unk ]} (window width (Py.len tagged) position).

(** The label of the sample at [position]: that of the token at the
    right edge of the window. *)
Definition window_label (tagged : list token) (width position : Z) : string :=
  from_option label_of "O"
    (tagged !! Z.to_nat (Z.min (position + width) (Py.len tagged - 1))).

Definition sentence_samples (add_unknown : bool) (gazetteer : Gazetteer)
    (voc : gset string) (unk : string) (tagged : list token) (width : Z)
    (positions : list Z) : list (Sample * string) :=
  (λ p, (window_sample add_unknown gazetteer voc unk tagged width p,
         window_label tagged width p)) <$> positions.

(** An extractor with the three accumulators replaced. *)
Definition with_accumulators (self : FeatureExtractor)
    (smp : list (Sample * string)) (voc lab : gset string) : FeatureExtractor :=
  mkFeatureExtractor (language self) (tagger self) (window_width self)
    (collapse_fes self) (unk_feature self) smp voc lab.

(** The extractor a call of [process_sentence] that returns leaves
    behind, [tagged] being the aligned tokens of the sentence. *)
Definition processed (add_unknown : bool) (gazetteer : Gazetteer)
    (self : FeatureExtractor) (tagged : list token) : FeatureExtractor :=
  let width := window_width self in
  let positions := Py.xrange 0 (Py.len tagged) in
  with_accumulators self
    (samples self
       ++ sentence_samples add_unknown gazetteer (vocabulary self)
            (unk_feature self) tagged width positions)
    (learn add_unknown (vocabulary self)
       (mjoin (window_tokens tagged width <$> positions)))
    (list_to_set (window_label tagged width <$> positions) ∪ labels self).

(** [fe_tokens] matches the tokens [span], ignoring case. *)
Definition matches (lower : string → string) (fe_tokens : list string)
    (span : list token) : Prop :=
  Forall2 (λ f t, lower f = lower (tok0 t)) fe_tokens span.

(** What the split mode makes of a raw token of the span of [fe]. *)
Definition relabel (fe : string) (t : token) : token :=
  Tag4 (tok0 t) (tok1 t) "ENT" fe.

(** A GAZ feature name. *)
Definition is_gaz_name (name : string) : Prop :=
  ∃ rel : Z, name = "GAZ" +:+ Py.fmt_signed rel.

(** The vocabulary invariant of the inference mode, for one feature of
    one sample: its value is a member of the vocabulary or the unknown
    sentinel. *)
Definition known_or_unknown (self : FeatureExtractor) (sample : Sample)
    (name : string) : Prop :=
  ∀ value, sample !! name = Some value →
    value ∈ vocabulary self ∨ value = unk_feature self.

(** ** Accumulator invariants *)

(** Every accumulated label is in the label set; [get_features] looks
    each one up in the index built from that set. *)
Definition labels_cover (self : FeatureExtractor) : Prop :=
  Forall (λ sl : Sample * string, sl.2 ∈ labels self) (samples self).

(** The extractors a caller can build: [__init__], then any number of
    [start] and [process_sentence] calls, whatever their outcome. *)
Inductive reachable (lower : string → string) (TTPosTagger : string → Tagger)
  : FeatureExtractor → Prop :=
  | reachable_init language window_width collapse_fes :
      reachable lower TTPosTagger
        (init TTPosTagger language window_width collapse_fes)
  | reachable_start self :
      reachable lower TTPosTagger self →
      reachable lower TTPosTagger (start self)
  | reachable_process self sentence fes add_unknown gazetteer :
      reachable lower TTPosTagger self →
      reachable lower TTPosTagger
        (process_sentence lower sentence fes add_unknown gazetteer self).2.

(** ** Names: [strephit/extraction/process_semistructured.py]

    [strip_honorifics] and [fix_name].  A name is a [string], one
    character of it standing for one character of the Python string;
    [unicode.lower] and the white space [strip] removes are taken as
    they come. *)

Module PyStr.

(** The one character of a literal such as [','] or ['.']. *)
Definition char_of (literal : string) : Ascii.ascii :=
  match literal with
  | String c _ => c
  | EmptyString => Ascii.zero
  end.

(** [s[0]] *)
Definition first_char (s : string) : result Ascii.ascii :=
  match s with
  | EmptyString => Raise IndexError
  | String c _ => Ok c
  end.

(** [s[n:]] for [n >= 0] *)
Fixpoint drop (n : nat) (s : string) : string :=
  match n, s with
  | O, _ => s
  | S _, EmptyString => EmptyString
  | S n', String _ s' => drop n' s'
  end.

(** [s.startswith(prefix)] *)
Definition startswith (s prefix : string) : bool := String.prefix prefix s.

Section Strip.

Variable is_space : Ascii.ascii → bool.

Fixpoint lstrip (s : string) : string :=
  match s with
  | EmptyString => EmptyString
  | String c s' => if is_space c then lstrip s' else s
  end.

Fixpoint rstrip (s : string) : string :=
  match s with
  | EmptyString => EmptyString
  | String c s' =>
      match rstrip s' with
      | EmptyString => if is_space c then EmptyString else String c EmptyString
      | r => String c r
      end
  end.

(** [s.strip()] *)
Definition strip (s : string) : string := rstrip (lstrip s).

End Strip.

(** [s.split(',', 1)]: the text before the first comma and the text
    after it, or [None] when there is no comma and the list has the
    one element [s]. *)
Fixpoint split_comma (s : string) : option (string * string) :=
  match s with
  | EmptyString => None
  | String c s' =>
      if decide (c = char_of ",") then Some (EmptyString, s')
      else
        match split_comma s' with
        | Some (before, after) => Some (String c before, after)
        | None => None
        end
  end.

End PyStr.

Definition honorific_prefixes : list string :=
  ["prof"; "dr"; "phd"; "sir"; "mr"; "mrs"; "miss"; "mister";
   "bishop"; "arcibishop"; "st"; "hon"; "rav"].

Section Names.

Variable lower : string → string.
Variable is_space : Ascii.ascii → bool.

(** The body of [for prefix in [...]] on the triple
    [(name, honorifics, changed)]. *)
Definition honorific_step (acc : string * list string * bool)
    (prefix : string) : result (string * list string * bool) :=
  let '(name, honorifics, changed) := acc in
  if PyStr.startswith name prefix then
    let honorifics := honorifics ++ [prefix] in
    let name := PyStr.drop (String.length prefix) name in
    c ← PyStr.first_char name;
    if decide (c = PyStr.char_of ".") then
      Ok (PyStr.strip is_space (PyStr.drop 1 name), honorifics, true)
    else Ok (name, honorifics, true)
  else Ok acc.

(** One round of [while changed], starting with [changed = False]. *)
Definition honorific_pass (name : string) (honorifics : list string)
  : result (string * list string * bool) :=
  for_result honorific_step (name, honorifics, false) honorific_prefixes.

(** The [while changed] loop; [None] is a loop still running when the
    fuel is spent. *)
Fixpoint honorific_loop (fuel : nat) (name : string) (honorifics : list string)
  : option (result (string * list string)) :=
  match fuel with
  | O => None
  | S fuel' =>
      match honorific_pass name honorifics with
      | Raise e => Some (Raise e)
      | Ok (name', honorifics', changed) =>
          if changed then honorific_loop fuel' name' honorifics'
          else Some (Ok (name', honorifics'))
      end
  end.

Definition strip_honorifics (name : string)
  : option (result (string * list string)) :=
  honorific_loop (S (String.length name)) name [].

Definition fix_name (name : string) : option (result (string * list string)) :=
  let name := lower name in
  match strip_honorifics name with
  | None => None
  | Some (Raise e) => Some (Raise e)
  | Some (Ok (name, honorifics)) =>
      let name :=
        match PyStr.split_comma name with
        | Some (last_name, first_name) =>
            PyStr.strip is_space first_name +:+ " "
              +:+ PyStr.strip is_space last_name
        | None => name
        end in
      Some (Ok (PyStr.strip is_space name, honorifics))
  end.

End Names.

(** ** The Wikidata lookup of [process_semistructured.py] *)

Module Wikidata.

(** One entry of the ['search'] list of a [wbsearchentities] answer.
    [label] is [r.get('label')]: [None] when the key is missing or its
    value is [None].  [id] is what [r['id']] does: [None] when the key
    is missing (the subscript raises [KeyError]), [Some None] when the
    key is there with the value [None], [Some (Some wid)] for an
    id. *)
Record hit : Type := {
  label : option string;
  id : option (option string);
}.

(** What a lookup can end with: an id, [None], or one of the two
    exceptions of the loop body ([None.lower()] and [r['id']] on a
    missing key). *)
Inductive outcome : Type :=
  | Returns (wid : option string)
  | AttributeError
  | KeyError.

End Wikidata.

Section WikidataLookup.

Variable lower : string → string.
(** [wikidata.call_api('wbsearchentities', search=..., language=...)],
    reduced to the value under ['search'] of its answer, [None] when
    the answer has no such key. *)
Variable call_api : string → string → option (list Wikidata.hit).

(** [for r in hits: ... else: return None] *)
Fixpoint search_hits (name : string) (hits : list Wikidata.hit)
  : Wikidata.outcome :=
  match hits with
  | [] => Wikidata.Returns None
  | r :: hits' =>
      match Wikidata.label r with
      | None => Wikidata.AttributeError
      | Some label =>
          if decide (lower label = lower name) then
            match Wikidata.id r with
            | Some wid => Wikidata.Returns wid
            | None => Wikidata.KeyError
            end
          else search_hits name hits'
      end
  end.

(** An entry the loop steps over: it has a label, and the label is not
    the name. *)
Definition passed_over (name : string) (r : Wikidata.hit) : Prop :=
  ∃ label, Wikidata.label r = Some label ∧ lower label ≠ lower name.

Definition get_wikidata_id (name : string) (cache : bool) (language : string)
  : Wikidata.outcome :=
  search_hits name (default [] (call_api name language)).

End WikidataLookup.

(** ** Python sequences: basic facts *)

Section PyFacts.
Context {A : Type}.
Implicit Types (l : list A) (i k : Z).

Lemma len_nonneg l : 0 ≤ Py.len l.
Proof. unfold Py.len. lia. Qed.

Lemma len_app l1 l2 : Py.len (l1 ++ l2) = Py.len l1 + Py.len l2.
Proof. unfold Py.len. rewrite length_app. lia. Qed.

Lemma getitem_lookup l i x :
  0 ≤ i → l !! Z.to_nat i = Some x → Py.getitem l i = Ok x.
Proof.
  intros Hi Hx. pose proof (lookup_lt_Some _ _ _ Hx) as Hlt.
  unfold Py.getitem, Py.norm_index, Py.len.
  destruct (decide (i < 0)); [lia|]. rewrite decide_True by lia.
  by rewrite Hx.
Qed.

Lemma getitem_in_range l i :
  0 ≤ i < Py.len l → ∃ x, l !! Z.to_nat i = Some x ∧ Py.getitem l i = Ok x.
Proof.
  intros Hi. destruct (lookup_lt_is_Some_2 l (Z.to_nat i)) as [x Hx].
  { unfold Py.len in Hi. lia. }
  exists x. split; [done|]. apply getitem_lookup; [lia|done].
Qed.

Lemma setitem_in_range l i x :
  0 ≤ i < Py.len l → Py.setitem l i x = Ok (<[Z.to_nat i := x]> l).
Proof.
  intros Hi. unfold Py.setitem, Py.norm_index.
  destruct (decide (i < 0)); [lia|]. by rewrite decide_True by lia.
Qed.

Lemma slice_to_nonneg l k : 0 ≤ k → Py.slice_to l k = take (Z.to_nat k) l.
Proof.
  intros Hk. unfold Py.slice_to, Py.clamp, Py.norm_index, Py.len.
  destruct (decide (k < 0)); [lia|].
  destruct (decide (Z.to_nat k ≤ length l)%nat).
  - f_equal. lia.
  - rewrite !take_ge by lia. done.
Qed.

Lemma slice_from_nonneg l k : 0 ≤ k → Py.slice_from l k = drop (Z.to_nat k) l.
Proof.
  intros Hk. unfold Py.slice_from, Py.clamp, Py.norm_index, Py.len.
  destruct (decide (k < 0)); [lia|].
  destruct (decide (Z.to_nat k ≤ length l)%nat).
  - f_equal. lia.
  - rewrite !drop_ge by lia. done.
Qed.
End PyFacts.

Lemma xrange_nil lo hi : hi ≤ lo → Py.xrange lo hi = [].
Proof. intros H. unfold Py.xrange. by replace (Z.to_nat (hi - lo)) with 0%nat by lia. Qed.

Lemma xrange_cons lo hi : lo < hi → Py.xrange lo hi = lo :: Py.xrange (lo + 1) hi.
Proof.
  intros H. unfold Py.xrange.
  replace (Z.to_nat (hi - lo)) with (S (Z.to_nat (hi - (lo + 1)))) by lia.
  cbn [seq fmap list_fmap]. f_equal; [lia|].
  rewrite <- seq_shift, <- list_fmap_compose.
  apply list_fmap_ext. intros _ k _. simpl. lia.
Qed.

Lemma xrange_snoc lo hi : lo < hi → Py.xrange lo hi = Py.xrange lo (hi - 1) ++ [hi - 1].
Proof.
  intros H. unfold Py.xrange.
  replace (Z.to_nat (hi - lo)) with (Z.to_nat (hi - 1 - lo) + 1)%nat by lia.
  rewrite seq_app, fmap_app. f_equal. simpl. f_equal. lia.
Qed.

Lemma elem_of_xrange i lo hi : i ∈ Py.xrange lo hi ↔ lo ≤ i < hi.
Proof.
  unfold Py.xrange. rewrite list_elem_of_fmap. split.
  - intros (k & -> & Hk). apply elem_of_seq in Hk. lia.
  - intros Hi. exists (Z.to_nat (i - lo)). split; [lia|].
    apply elem_of_seq. lia.
Qed.

Lemma xrange_lookup lo hi (k : nat) :
  lo + Z.of_nat k < hi → Py.xrange lo hi !! k = Some (lo + Z.of_nat k).
Proof.
  intros H. unfold Py.xrange. rewrite list_lookup_fmap.
  rewrite lookup_seq_lt by lia. done.
Qed.

Lemma xrange_length lo hi : length (Py.xrange lo hi) = Z.to_nat (hi - lo).
Proof. unfold Py.xrange. by rewrite length_fmap, length_seq. Qed.

Lemma fmt_signed_inj : Inj (=) (=) Py.fmt_signed.
Proof.
  intros a b. unfold Py.fmt_signed.
  destruct (decide (0 ≤ a)), (decide (0 ≤ b)); intros H.
  - apply (inj pretty). by simplify_eq/=.
  - destruct b as [|b|b]; try lia. by simplify_eq/=.
  - destruct a as [|a|a]; try lia. by simplify_eq/=.
  - by apply (inj pretty).
Qed.

(** ** Feature names *)

Lemma unk_not_term rel : "unk" ≠ "TERM" +:+ Py.fmt_signed rel.
Proof. done. Qed.
Lemma unk_not_pos rel : "unk" ≠ "POS" +:+ Py.fmt_signed rel.
Proof. done. Qed.
Lemma unk_not_lemma rel : "unk" ≠ "LEMMA" +:+ Py.fmt_signed rel.
Proof. done. Qed.
Lemma unk_not_gaz rel : "unk" ≠ "GAZ" +:+ Py.fmt_signed rel.
Proof. done. Qed.

Lemma gaz_name_inj a b :
  "GAZ" +:+ Py.fmt_signed a = "GAZ" +:+ Py.fmt_signed b → a = b.
Proof. intros H. apply fmt_signed_inj. by simplify_eq/=. Qed.

Lemma gaz_not_term a b : "GAZ" +:+ Py.fmt_signed a ≠ "TERM" +:+ Py.fmt_signed b.
Proof. done. Qed.
Lemma gaz_not_pos a b : "GAZ" +:+ Py.fmt_signed a ≠ "POS" +:+ Py.fmt_signed b.
Proof. done. Qed.
Lemma gaz_not_lemma a b : "GAZ" +:+ Py.fmt_signed a ≠ "LEMMA" +:+ Py.fmt_signed b.
Proof. done. Qed.

(** ** [add_gazetteer] *)

Lemma add_gazetteer_other gazetteer (sample : Sample) name word k :
  k ≠ name → add_gazetteer gazetteer sample name word !! k = sample !! k.
Proof.
  intros Hk. unfold add_gazetteer.
  generalize (default [] (gazetteer !! word)). intros feats.
  revert sample. induction feats as [|f feats IH]; intros sample; [done|].
  simpl. rewrite IH. by rewrite lookup_insert_ne.
Qed.

Lemma add_gazetteer_last gazetteer (sample : Sample) name word feats v :
  gazetteer !! word = Some feats → last feats = Some v →
  add_gazetteer gazetteer sample name word !! name = Some v.
Proof.
  intros Hw Hl. unfold add_gazetteer. rewrite Hw. simpl.
  destruct (last_Some feats v) as [[feats' ->] _]; [done|]. 
  rewrite foldl_app. simpl. apply lookup_insert_eq.
Qed.

Lemma add_gazetteer_none gazetteer (sample : Sample) name word :
  default [] (gazetteer !! word) = [] →
  add_gazetteer gazetteer sample name word = sample.
Proof. intros H. unfold add_gazetteer. by rewrite H. Qed.

Lemma add_gazetteer_empty (sample : Sample) name word :
  add_gazetteer ∅ sample name word = sample.
Proof. apply add_gazetteer_none. by rewrite lookup_empty. Qed.

(** ** The vocabulary policy *)

Lemma with_accumulators_self self :
  with_accumulators self (samples self) (vocabulary self) (labels self) = self.
Proof. by destruct self. Qed.

Lemma resolve_learn add_unknown voc ts unk v :
  resolve add_unknown (learn add_unknown voc ts) unk v
  = resolve add_unknown voc unk v.
Proof. unfold resolve, learn. by destruct add_unknown. Qed.

Lemma learn_nil add_unknown voc : learn add_unknown voc [] = voc.
Proof. unfold learn. destruct add_unknown; [|done]. simpl. set_solver. Qed.

Lemma learn_app add_unknown voc ts1 ts2 :
  learn add_unknown (learn add_unknown voc ts1) ts2
  = learn add_unknown voc (ts1 ++ ts2).
Proof.
  unfold learn. destruct add_unknown; [|done].
  rewrite fmap_app, union_list_app_L. set_solver.
Qed.

Lemma elem_of_learn add_unknown voc ts x :
  x ∈ learn add_unknown voc ts →
  x ∈ voc ∨ ∃ t, t ∈ ts ∧ x ∈ token_values t.
Proof.
  unfold learn. destruct add_unknown; [|by left].
  rewrite elem_of_union, elem_of_union_list.
  intros [?|(X & HX & Hx)]; [by left|right].
  apply list_elem_of_fmap in HX as (t & -> & Ht). eauto.
Qed.

Lemma learn_false voc ts : learn false voc ts = voc.
Proof. done. Qed.

Lemma add_feature_to_run add_unknown (sample : Sample) name v self smp voc lab :
  add_feature_to add_unknown sample name v (with_accumulators self smp voc lab)
  = (Ok (<[name := resolve add_unknown voc (unk_feature self) v]> sample),
     with_accumulators self smp (if add_unknown then {[v]} ∪ voc else voc) lab).
Proof.
  unfold add_feature_to, resolve, mbind, M_bind, get_self, modify_self, mret,
    M_ret. simpl.
  destruct add_unknown; simpl; [done|].
  case_bool_decide as Hv; simpl; [|done].
  unfold set_vocabulary, with_accumulators. simpl.
  by replace ({[v]} ∪ voc) with voc by set_solver.
Qed.

Lemma window_step_run add_unknown gazetteer tagged position sample iv i t
    self smp voc ts lab :
  0 ≤ i → tagged !! Z.to_nat i = Some t →
  window_step add_unknown gazetteer tagged position (sample, iv) i
    (with_accumulators self smp (learn add_unknown voc ts) lab)
  = (Ok (token_features add_unknown gazetteer voc (unk_feature self) sample
           (i - position) t, Some i),
     with_accumulators self smp (learn add_unknown voc (ts ++ [t])) lab).
Proof.
  intros Hi Ht. unfold window_step.
  unfold mbind at 1, M_bind at 1, lift_result.
  rewrite (getitem_lookup _ _ _ Hi Ht).
  unfold mbind at 1, M_bind at 1. rewrite add_feature_to_run.
  unfold mbind at 1, M_bind at 1. rewrite add_feature_to_run.
  unfold mbind at 1, M_bind at 1. rewrite add_feature_to_run.
  unfold mret, M_ret, token_features. simpl.
  f_equal.
  - do 2 f_equal. unfold resolve, learn. by destruct add_unknown.
  - f_equal. rewrite <- learn_app. unfold learn, token_values.
    destruct add_unknown; [|done]. simpl. set_solver.
Qed.

Lemma window_loop_run add_unknown gazetteer tagged position self smp voc lab
    (indices : list Z) :
  ∀ sample iv ts,
  (∀ i, i ∈ indices → 0 ≤ i < Py.len tagged) →
  for_M (window_step add_unknown gazetteer tagged position) (sample, iv)
    indices (with_accumulators self smp (learn add_unknown voc ts) lab)
  = (Ok (window_fold add_unknown gazetteer voc (unk_feature self) tagged
           position sample indices,
         from_option Some iv (last indices)),
     with_accumulators self smp
       (learn add_unknown voc
          (ts ++ omap (λ i : Z, tagged !! Z.to_nat i) indices)) lab).
Proof.
  induction indices as [|i indices IH]; intros sample iv ts Hin.
  - simpl. by rewrite app_nil_r.
  - destruct (getitem_in_range tagged i) as (t & Ht & _).
    { apply Hin. by left. }
    cbn [for_M]. unfold mbind at 1, M_bind at 1.
    rewrite (window_step_run _ _ _ _ _ _ _ t) by (done || apply Hin; by left).
    rewrite IH by (intros; apply Hin; by right).
    cbn [omap list_omap]. rewrite Ht, <- app_assoc. cbn [app].
    f_equal. f_equal. f_equal.
    + unfold window_fold. cbn [foldl]. f_equal.
      unfold sample_step. by rewrite Ht.
    + rewrite last_cons. by destruct (last indices).
Qed.

(** ** The window *)

Lemma window_in_range width n position i :
  i ∈ window width n position → 0 ≤ i < n.
Proof. unfold window. rewrite elem_of_xrange. lia. Qed.

Lemma elem_of_window width n position i :
  i ∈ window width n position ↔
  0 ≤ i < n ∧ position - width ≤ i ≤ position + width.
Proof. unfold window. rewrite elem_of_xrange. lia. Qed.

Lemma window_last width n position :
  0 ≤ width → 0 ≤ position < n →
  last (window width n position) = Some (Z.min (position + width) (n - 1)).
Proof.
  intros Hw Hp. unfold window. rewrite xrange_snoc by lia.
  rewrite last_snoc. f_equal. lia.
Qed.

Lemma window_negative width n position :
  width < 0 → 0 ≤ position → window width n position = [].
Proof. intros Hw Hp. unfold window. apply xrange_nil. lia. Qed.

Lemma window_NoDup width n position : NoDup (window width n position).
Proof.
  unfold window, Py.xrange. apply NoDup_fmap_2; [|apply NoDup_seq].
  intros a b. lia.
Qed.

(** ** One position of [process_sentence] *)

Lemma label_run t :
  (if decide (tok_len t = 3) then Ok "O" else tok3 t) = Ok (label_of t).
Proof. by destruct t. Qed.

Lemma position_step_run add_unknown gazetteer tagged iv position
    self smp voc ts lab :
  0 ≤ window_width self → 0 ≤ position < Py.len tagged →
  position_step add_unknown gazetteer tagged iv position
    (with_accumulators self smp (learn add_unknown voc ts) lab)
  = (Ok (Some (Z.min (position + window_width self) (Py.len tagged - 1))),
     with_accumulators self
       (smp ++ [(window_sample add_unknown gazetteer voc (unk_feature self)
                   tagged (window_width self) position,
                 window_label tagged (window_width self) position)])
       (learn add_unknown voc
          (ts ++ window_tokens tagged (window_width self) position))
       ({[window_label tagged (window_width self) position]} ∪ lab)).
Proof.
  intros Hw Hp. unfold position_step.
  unfold mbind at 1, M_bind at 1, get_self.
  cbn [window_width unk_feature with_accumulators].
  fold (window (window_width self) (Py.len tagged) position).
  unfold mbind at 1, M_bind at 1.
  rewrite window_loop_run by apply window_in_range.
  rewrite window_last by done. cbn [from_option].
  unfold mbind at 1, M_bind at 1, lift_result at 1.
  destruct (getitem_in_range tagged
              (Z.min (position + window_width self) (Py.len tagged - 1)))
    as (t & Ht & Hget); [lia|].
  unfold mbind at 1, M_bind at 1, lift_result at 1. rewrite Hget.
  unfold mbind at 1, M_bind at 1, lift_result at 1. rewrite label_run.
  unfold mbind, M_bind, modify_self, mret, M_ret.
  unfold window_label, window_sample, window_tokens. rewrite Ht. done.
Qed.

Lemma position_step_unbound add_unknown gazetteer tagged position self :
  window_width self < 0 → 0 ≤ position →
  position_step add_unknown gazetteer tagged None position self
  = (Raise UnboundLocalError, self).
Proof.
  intros Hw Hp. unfold position_step.
  unfold mbind at 1, M_bind at 1, get_self.
  fold (window (window_width self) (Py.len tagged) position).
  rewrite window_negative by done. done.
Qed.

Lemma positions_loop_run add_unknown gazetteer tagged self (positions : list Z) :
  ∀ iv smp voc ts lab,
  0 ≤ window_width self →
  (∀ p, p ∈ positions → 0 ≤ p < Py.len tagged) →
  ∃ iv',
  for_M (position_step add_unknown gazetteer tagged) iv positions
    (with_accumulators self smp (learn add_unknown voc ts) lab)
  = (Ok iv',
     with_accumulators self
       (smp ++ sentence_samples add_unknown gazetteer voc (unk_feature self)
                 tagged (window_width self) positions)
       (learn add_unknown voc
          (ts ++ mjoin (window_tokens tagged (window_width self) <$> positions)))
       (list_to_set (window_label tagged (window_width self) <$> positions)
          ∪ lab)).
Proof.
  induction positions as [|p positions IH]; intros iv smp voc ts lab Hw Hin.
  - exists iv. simpl. rewrite !app_nil_r. by rewrite (left_id_L ∅ (∪)).
  - cbn [for_M]. unfold mbind at 1, M_bind at 1.
    rewrite position_step_run by (done || apply Hin; by left).
    edestruct IH as [iv' ->]; [done|intros; apply Hin; by right|].
    exists iv'. cbn [fmap list_fmap mjoin list_join sentence_samples].
    rewrite <- !app_assoc. cbn [app list_to_set foldr].
    do 2 f_equal. set_solver.
Qed.

(** ** [process_sentence] as a whole *)

Section ProcessSentence.

Variable lower : string → string.
Variables (sentence : string) (fes : FEs) (add_unknown : bool)
  (gazetteer : Gazetteer).

#[local] Abbreviation processed := (processed add_unknown gazetteer).

Lemma processed_nil self : processed self [] = self.
Proof.
  unfold processed. simpl. rewrite app_nil_r, learn_nil.
  rewrite (left_id_L ∅ (∪)). apply with_accumulators_self.
Qed.

Lemma process_sentence_run self tagged :
  sentence_to_tokens lower self sentence fes = Ok tagged →
  0 ≤ window_width self →
  process_sentence lower sentence fes add_unknown gazetteer self
  = (Ok tt, processed self tagged).
Proof.
  intros Htag Hw. unfold process_sentence.
  unfold mbind at 1, M_bind at 1, get_self.
  unfold mbind at 1, M_bind at 1, lift_result. rewrite Htag.
  unfold mbind at 1, M_bind at 1.
  rewrite <- (with_accumulators_self self) at 1.
  rewrite <- (learn_nil add_unknown (vocabulary self)) at 1.
  edestruct (positions_loop_run add_unknown gazetteer tagged self
               (Py.xrange 0 (Py.len tagged))) as [iv' ->]; [done| |done].
  intros p. rewrite elem_of_xrange. lia.
Qed.

Lemma process_sentence_raise self e :
  sentence_to_tokens lower self sentence fes = Raise e →
  process_sentence lower sentence fes add_unknown gazetteer self
  = (Raise e, self).
Proof.
  intros Htag. unfold process_sentence.
  unfold mbind at 1, M_bind at 1, get_self.
  unfold mbind at 1, M_bind at 1, lift_result. by rewrite Htag.
Qed.

Lemma process_sentence_nil self :
  sentence_to_tokens lower self sentence fes = Ok [] →
  process_sentence lower sentence fes add_unknown gazetteer self
  = (Ok tt, self).
Proof.
  intros Htag. unfold process_sentence.
  unfold mbind at 1, M_bind at 1, get_self.
  unfold mbind at 1, M_bind at 1, lift_result. by rewrite Htag.
Qed.

(** With a negative width the inner loop never runs, and the label
    reads a loop variable that was never bound. *)
Lemma process_sentence_unbound self tagged :
  sentence_to_tokens lower self sentence fes = Ok tagged →
  tagged ≠ [] → window_width self < 0 →
  process_sentence lower sentence fes add_unknown gazetteer self
  = (Raise UnboundLocalError, self).
Proof.
  intros Htag Hne Hw. unfold process_sentence.
  unfold mbind at 1, M_bind at 1, get_self.
  unfold mbind at 1, M_bind at 1, lift_result. rewrite Htag.
  rewrite xrange_cons by (destruct tagged; [done|unfold Py.len; simpl; lia]).
  cbn [for_M]. unfold mbind at 1, M_bind at 1.
  unfold mbind at 1, M_bind at 1.
  by rewrite position_step_unbound.
Qed.

(** Every call either returns, leaving [processed], or raises and
    leaves the extractor as it was. *)
Lemma process_sentence_cases self r self' :
  process_sentence lower sentence fes add_unknown gazetteer self = (r, self') →
  (∃ tagged, sentence_to_tokens lower self sentence fes = Ok tagged
     ∧ (0 ≤ window_width self ∨ tagged = [])
     ∧ r = Ok tt ∧ self' = processed self tagged)
  ∨ (∃ e, r = Raise e ∧ self' = self).
Proof.
  intros Hrun.
  destruct (sentence_to_tokens lower self sentence fes) as [tagged|e] eqn:Htag.
  - destruct (decide (0 ≤ window_width self)) as [Hw|Hw].
    + rewrite (process_sentence_run _ _ Htag Hw) in Hrun.
      left. exists tagged. naive_solver.
    + destruct (decide (tagged = [])) as [->|Hne].
      * rewrite (process_sentence_nil _ Htag) in Hrun.
        left. exists []. rewrite processed_nil. naive_solver.
      * rewrite (process_sentence_unbound _ _ Htag Hne) in Hrun by lia.
        right. exists UnboundLocalError. naive_solver.
  - rewrite (process_sentence_raise _ _ Htag) in Hrun.
    right. exists e. naive_solver.
Qed.

(** The fields of [processed]. *)
Lemma processed_sample self tagged (k : nat) :
  (k < length tagged)%nat →
  samples (processed self tagged) !! (length (samples self) + k)%nat
  = Some (window_sample add_unknown gazetteer (vocabulary self)
            (unk_feature self) tagged (window_width self) (Z.of_nat k),
          window_label tagged (window_width self) (Z.of_nat k)).
Proof.
  intros Hk. unfold processed. cbn [samples with_accumulators].
  rewrite lookup_app_r by lia.
  replace (length (samples self) + k - length (samples self))%nat with k
    by lia.
  unfold sentence_samples. rewrite list_lookup_fmap.
  rewrite xrange_lookup by (unfold Py.len; lia). simpl.
  by rewrite Z.add_0_l.
Qed.

Lemma processed_samples_length self tagged :
  length (samples (processed self tagged))
  = (length (samples self) + length tagged)%nat.
Proof.
  unfold processed. cbn [samples with_accumulators].
  rewrite length_app. unfold sentence_samples.
  rewrite length_fmap, xrange_length. unfold Py.len. lia.
Qed.

Lemma processed_unk_feature self tagged :
  unk_feature (processed self tagged) = unk_feature self.
Proof. done. Qed.

End ProcessSentence.

(** ** What a sample holds *)

Section Samples.

Variables (add_unknown : bool) (gazetteer : Gazetteer) (voc : gset string)
  (unk : string) (tagged : list token).

Lemma token_features_other (sample : Sample) rel t name :
  name ≠ "TERM" +:+ Py.fmt_signed rel →
  name ≠ "POS" +:+ Py.fmt_signed rel →
  name ≠ "LEMMA" +:+ Py.fmt_signed rel →
  name ≠ "GAZ" +:+ Py.fmt_signed rel →
  token_features add_unknown gazetteer voc unk sample rel t !! name
  = sample !! name.
Proof.
  intros H1 H2 H3 H4. unfold token_features.
  rewrite add_gazetteer_other by done.
  by rewrite !lookup_insert_ne.
Qed.

Lemma token_features_gaz (sample : Sample) rel t feats v :
  gazetteer !! tok0 t = Some feats → last feats = Some v →
  token_features add_unknown gazetteer voc unk sample rel t
    !! ("GAZ" +:+ Py.fmt_signed rel) = Some v.
Proof. intros. unfold token_features. by eapply add_gazetteer_last. Qed.

#[local] Abbreviation fold_at :=
  (window_fold add_unknown gazetteer voc unk tagged).
#[local] Abbreviation step_at :=
  (sample_step add_unknown gazetteer voc unk tagged).

Lemma window_fold_cons position (sample : Sample) i indices :
  fold_at position sample (i :: indices)
  = fold_at position (step_at position sample i) indices.
Proof. done. Qed.

Lemma window_fold_app position (sample : Sample) l1 l2 :
  fold_at position sample (l1 ++ l2)
  = fold_at position (fold_at position sample l1) l2.
Proof. apply foldl_app. Qed.

Lemma window_fold_unk position indices : ∀ sample : Sample,
  sample !! "unk" = Some unk →
  fold_at position sample indices !! "unk" = Some unk.
Proof.
  induction indices as [|i indices IH]; intros sample Hs; [done|].
  rewrite window_fold_cons. apply IH. unfold sample_step.
  destruct (tagged !! Z.to_nat i); [|done].
  by rewrite token_features_other.
Qed.

Lemma window_fold_gaz_other position indices rel : ∀ sample : Sample,
  position + rel ∉ indices →
  fold_at position sample indices !! ("GAZ" +:+ Py.fmt_signed rel)
  = sample !! ("GAZ" +:+ Py.fmt_signed rel).
Proof.
  induction indices as [|i indices IH]; intros sample Hnot; [done|].
  apply not_elem_of_cons in Hnot as [Hne Hnot].
  rewrite window_fold_cons, IH by done. unfold sample_step.
  destruct (tagged !! Z.to_nat i); [|done].
  rewrite token_features_other; [done|done|done|done|].
  intros Heq. apply gaz_name_inj in Heq. lia.
Qed.

Lemma window_fold_gaz position indices rel t feats v : ∀ sample : Sample,
  NoDup indices → position + rel ∈ indices →
  tagged !! Z.to_nat (position + rel) = Some t →
  gazetteer !! tok0 t = Some feats → last feats = Some v →
  fold_at position sample indices !! ("GAZ" +:+ Py.fmt_signed rel)
  = Some v.
Proof.
  intros sample Hnd Hin Ht Hg Hl.
  apply list_elem_of_split in Hin as (l1 & l2 & ->).
  apply NoDup_app in Hnd as (_ & _ & Hnd).
  apply NoDup_cons in Hnd as [Hnot _].
  rewrite window_fold_app, window_fold_cons.
  rewrite window_fold_gaz_other by done.
  unfold sample_step. rewrite Ht. replace (position + rel - position) with rel by lia.
  by eapply token_features_gaz.
Qed.

(** A GAZ feature is there only if the gazetteer has the word. *)
Lemma window_fold_gaz_absent position indices rel : ∀ sample : Sample,
  sample !! ("GAZ" +:+ Py.fmt_signed rel) = None →
  (∀ t, tagged !! Z.to_nat (position + rel) = Some t →
        default [] (gazetteer !! tok0 t) = []) →
  fold_at position sample indices !! ("GAZ" +:+ Py.fmt_signed rel) = None.
Proof.
  induction indices as [|i indices IH]; intros sample Hs Habs; [done|].
  rewrite window_fold_cons. apply IH; [|done]. unfold sample_step.
  destruct (tagged !! Z.to_nat i) as [t|] eqn:Ht; [|done].
  destruct (decide (i = position + rel)) as [->|Hne].
  - unfold token_features. rewrite add_gazetteer_none by eauto.
    by rewrite !lookup_insert_ne.
  - rewrite token_features_other; [done|done|done|done|].
    intros Heq. apply gaz_name_inj in Heq. lia.
Qed.

End Samples.

(** In inference mode every feature that is not a GAZ feature holds a
    member of the vocabulary or the unknown sentinel. *)
Lemma window_fold_known gazetteer voc unk tagged position indices :
  ∀ sample : Sample,
  (∀ name v, sample !! name = Some v →
     is_gaz_name name ∨ v ∈ voc ∨ v = unk) →
  ∀ name v,
    window_fold false gazetteer voc unk tagged position sample indices !! name
    = Some v →
    is_gaz_name name ∨ v ∈ voc ∨ v = unk.
Proof.
  induction indices as [|i indices IH]; intros sample Hs name v; [apply Hs|].
  rewrite window_fold_cons. apply IH. clear name v. intros name v.
  unfold sample_step.
  destruct (tagged !! Z.to_nat i) as [t|]; [|apply Hs].
  destruct (decide (name = "GAZ" +:+ Py.fmt_signed (i - position))) as [->|Hg].
  { intros _. left. by eexists. }
  unfold token_features. rewrite add_gazetteer_other by done.
  assert (∀ x, resolve false voc unk x ∈ voc ∨ resolve false voc unk x = unk)
    as Hres.
  { intros x. unfold resolve. simpl. case_bool_decide; auto. }
  rewrite !lookup_insert. repeat case_decide; try apply Hs.
  all: intros [= <-]; right; apply Hres.
Qed.

Lemma window_sample_unk add_unknown gazetteer voc unk tagged width position :
  window_sample add_unknown gazetteer voc unk tagged width position !! "unk"
  = Some unk.
Proof. apply window_fold_unk, lookup_singleton_eq. Qed.

Lemma elem_of_sentence_samples add_unknown gazetteer voc unk tagged width
    positions sample label :
  (sample, label)
    ∈ sentence_samples add_unknown gazetteer voc unk tagged width positions →
  ∃ p, p ∈ positions
    ∧ sample = window_sample add_unknown gazetteer voc unk tagged width p
    ∧ label = window_label tagged width p.
Proof.
  unfold sentence_samples. rewrite list_elem_of_fmap.
  intros (p & [= -> ->] & Hp). eauto.
Qed.

Lemma elem_of_window_tokens tagged width position t :
  t ∈ window_tokens tagged width position → t ∈ tagged.
Proof.
  unfold window_tokens. rewrite list_elem_of_omap.
  intros (i & _ & Hi). by eapply list_elem_of_lookup_2.
Qed.

Lemma processed_vocabulary add_unknown gazetteer self tagged x :
  x ∈ vocabulary (processed add_unknown gazetteer self tagged) →
  x ∈ vocabulary self ∨ ∃ t, t ∈ tagged ∧ x ∈ token_values t.
Proof.
  unfold processed. cbn [vocabulary with_accumulators].
  intros [?|(t & Ht & Hx)]%elem_of_learn; [by left|right].
  exists t. split; [|done].
  apply list_elem_of_join in Ht as (ts & Ht & Hts).
  apply list_elem_of_fmap in Hts as (p & -> & _).
  by eapply elem_of_window_tokens.
Qed.

(** C7: every sample [process_sentence] appends holds the feature
    ['unk'], and its value is the unknown sentinel of the extractor;
    this is so for every sentence, FE map, window width, gazetteer and
    both modes, whether the call returns or raises. *)
Theorem every_sample_has_sentinel lower sentence fes add_unknown gazetteer
    self r self' :
  process_sentence lower sentence fes add_unknown gazetteer self = (r, self') →
  unk_feature self' = unk_feature self ∧
  ∃ new, samples self' = samples self ++ new ∧
    ∀ sample label, (sample, label) ∈ new →
      sample !! "unk" = Some (unk_feature self).
Proof.
  intros [(tagged & _ & _ & _ & ->)|(e & _ & ->)]%process_sentence_cases.
  - split; [done|]. eexists. split; [done|].
    intros sample label (p & _ & -> & _)%elem_of_sentence_samples.
    apply window_sample_unk.
  - split; [done|]. exists []. split; [by rewrite app_nil_r|].
    intros ?? []%elem_of_nil.
Qed.

Lemma every_sample_has_sentinel_witness :
  let run := process_sentence Demo.lower "Ada met Bob" [("Who", Some "ada")]
               false {[ "Ada" := ["PERSON"] ]} (Demo.extractor 1 true) in
  run.1 = Ok tt ∧ length (samples run.2) = 3%nat ∧
  unk_feature run.2 = "UNK" ∧
  ∃ new, samples run.2 = [] ++ new ∧
    ∀ sample label, (sample, label) ∈ new → sample !! "unk" = Some "UNK".
Proof.
  split; [by vm_compute|]. split; [by vm_compute|].
  apply (every_sample_has_sentinel Demo.lower "Ada met Bob"
           [("Who", Some "ada")] false {[ "Ada" := ["PERSON"] ]}
           (Demo.extractor 1 true) (Ok tt)).
  vm_compute. reflexivity.
Defined.

(** C1: in a call that returns on a non-empty token sequence, the label
    of the sample built at position [p] is that of the token at index
    [min(p + window_width, len(tokens) - 1)], the last one the offset
    loop visits: its frame element if it has one, ['O'] otherwise. *)
Theorem label_from_right_edge lower sentence fes add_unknown gazetteer
    self self' tagged (p : nat) :
  process_sentence lower sentence fes add_unknown gazetteer self
  = (Ok tt, self') →
  sentence_to_tokens lower self sentence fes = Ok tagged →
  tagged ≠ [] → (p < length tagged)%nat →
  ∃ t sample,
    tagged !! Z.to_nat (Z.min (Z.of_nat p + window_width self)
                          (Py.len tagged - 1)) = Some t
    ∧ last (window (window_width self) (Py.len tagged) (Z.of_nat p))
      = Some (Z.min (Z.of_nat p + window_width self) (Py.len tagged - 1))
    ∧ samples self' !! (length (samples self) + p)%nat
      = Some (sample, label_of t).
Proof.
  intros Hrun Htag Hne Hp.
  apply process_sentence_cases in Hrun
    as [(tagged' & Htag' & Hw & _ & ->)|(e & [=] & _)].
  rewrite Htag in Htag'. injection Htag' as <-.
  destruct Hw as [Hw|]; [|done].
  destruct (getitem_in_range tagged
              (Z.min (Z.of_nat p + window_width self) (Py.len tagged - 1)))
    as (t & Ht & _); [unfold Py.len; lia|].
  exists t. eexists. split; [done|].
  split; [apply window_last; unfold Py.len; lia|].
  rewrite processed_sample by done. unfold window_label. by rewrite Ht.
Qed.

Lemma label_from_right_edge_witness :
  let self := Demo.extractor 1 true in
  let run := process_sentence Demo.lower "Ada met Bob" [("Who", Some "bob")]
               true ∅ self in
  ∃ t sample,
    [Tag3 "Ada" "W" "ada"; Tag3 "met" "W" "met"; Tag4 "bob" "W" "bob" "Who"]
      !! Z.to_nat (Z.min (Z.of_nat 1 + 1) (3 - 1)) = Some t
    ∧ last (window 1 3 (Z.of_nat 1)) = Some (Z.min (Z.of_nat 1 + 1) (3 - 1))
    ∧ samples run.2 !! (0 + 1)%nat = Some (sample, label_of t).
Proof.
  apply (label_from_right_edge Demo.lower "Ada met Bob" [("Who", Some "bob")]
           true ∅ (Demo.extractor 1 true) _
           [Tag3 "Ada" "W" "ada"; Tag3 "met" "W" "met";
            Tag4 "bob" "W" "bob" "Who"] 1).
  - vm_compute. reflexivity.
  - vm_compute. reflexivity.
  - discriminate.
  - simpl. lia.
Defined.

(** The label of the sample at the center position 1 of "Ada met Bob" is
    the frame element of "Bob", the token at the right edge, although
    the center token "met" carries none. *)
Example label_not_from_center :
  let run := process_sentence Demo.lower "Ada met Bob" [("Who", Some "bob")]
               true ∅ (Demo.extractor 1 true) in
  snd <$> samples run.2 !! 1%nat = Some "Who".
Proof. by vm_compute. Qed.

Lemma window_sample_known gazetteer voc unk tagged width position name v :
  window_sample false gazetteer voc unk tagged width position !! name = Some v →
  is_gaz_name name ∨ v ∈ voc ∨ v = unk.
Proof.
  apply window_fold_known. clear name v. intros name v.
  rewrite lookup_singleton. case_decide; [|done]. intros [= <-]. auto.
Qed.

Lemma window_sample_gaz add_unknown gazetteer voc unk tagged width position
    rel t feats v :
  0 ≤ position + rel → - width ≤ rel ≤ width →
  tagged !! Z.to_nat (position + rel) = Some t →
  gazetteer !! tok0 t = Some feats → last feats = Some v →
  window_sample add_unknown gazetteer voc unk tagged width position
    !! ("GAZ" +:+ Py.fmt_signed rel) = Some v.
Proof.
  intros Hpos Hrel Ht Hg Hl. unfold window_sample.
  eapply window_fold_gaz; [apply window_NoDup| |done..].
  apply elem_of_window. apply lookup_lt_Some in Ht. unfold Py.len. lia.
Qed.

(** C2, as the code has it: in inference mode ([add_unknown = False])
    the vocabulary is left as it was, and in every sample the call
    appends, every feature that is not a GAZ feature holds a member of
    the vocabulary or the unknown sentinel.  GAZ features are outside
    this guarantee. *)
Theorem inference_values_known lower sentence fes gazetteer self r self' :
  process_sentence lower sentence fes false gazetteer self = (r, self') →
  vocabulary self' = vocabulary self ∧
  ∃ new, samples self' = samples self ++ new ∧
    ∀ sample label name, (sample, label) ∈ new →
      ¬ is_gaz_name name → known_or_unknown self' sample name.
Proof.
  intros [(tagged & _ & _ & _ & ->)|(e & _ & ->)]%process_sentence_cases.
  - split; [done|]. eexists. split; [done|].
    intros sample label name (p & _ & -> & _)%elem_of_sentence_samples Hgaz.
    intros v Hv. apply window_sample_known in Hv. naive_solver.
  - split; [done|]. exists []. split; [by rewrite app_nil_r|].
    intros ??? []%elem_of_nil.
Qed.

Lemma inference_values_known_witness :
  let self := Demo.extractor 1 true in
  let run := process_sentence Demo.lower "Ada met Bob" [("Who", Some "bob")]
               false {[ "Ada" := ["PERSON"] ]} self in
  vocabulary run.2 = vocabulary self ∧
  ∃ new, samples run.2 = samples self ++ new ∧
    ∀ sample label name, (sample, label) ∈ new →
      ¬ is_gaz_name name → known_or_unknown run.2 sample name.
Proof.
  apply (inference_values_known Demo.lower "Ada met Bob" [("Who", Some "bob")]
           {[ "Ada" := ["PERSON"] ]} (Demo.extractor 1 true) (Ok tt)).
  vm_compute. reflexivity.
Defined.

(** C2 as stated fails: with an empty vocabulary, the word "Ada" in the
    gazetteer puts the raw value "PERSON" into the sample, which is
    neither in the vocabulary nor the sentinel. *)
Lemma gazetteer_value_not_known :
  let self := Demo.extractor 1 true in
  let run := process_sentence Demo.lower "Ada" [] false
               {[ "Ada" := ["PERSON"] ]} self in
  run.1 = Ok tt ∧
  ¬ (∀ sample label name, (sample, label) ∈ samples run.2 →
       known_or_unknown run.2 sample name).
Proof.
  split; [by vm_compute|]. intros Hall.
  pose (run := process_sentence Demo.lower "Ada" [] false
                 {[ "Ada" := ["PERSON"] ]} (Demo.extractor 1 true)).
  assert (∃ sample label, samples run.2 !! 0%nat = Some (sample, label)
            ∧ sample !! "GAZ+0" = Some "PERSON") as (sample & label & Hs & Hg).
  { eexists _, _. split; [vm_compute; reflexivity|]. by vm_compute. }
  apply list_elem_of_lookup_2 in Hs.
  destruct (Hall sample label "GAZ+0" Hs "PERSON" Hg) as [Hin|Heq].
  - apply (bool_decide_pack _) in Hin. by vm_compute in Hin.
  - by vm_compute in Heq.
Qed.

(** C10: GAZ features go around the vocabulary policy.  In a call that
    returns, in either mode, a window token whose word is a gazetteer
    key with a non-empty feature list gives the sample the feature
    [GAZ<offset>] with the last value of that list, verbatim; and the
    vocabulary gains nothing from the gazetteer: each member is an old
    one or the word, tag or lemma of a token, and the vocabulary is the
    one the same call leaves with an empty gazetteer. *)
Theorem gazetteer_bypasses_vocabulary lower sentence fes add_unknown gazetteer
    self self' tagged :
  process_sentence lower sentence fes add_unknown gazetteer self
  = (Ok tt, self') →
  sentence_to_tokens lower self sentence fes = Ok tagged →
  (∀ (p : nat) (rel : Z) t feats v,
     (p < length tagged)%nat →
     - window_width self ≤ rel ≤ window_width self →
     0 ≤ Z.of_nat p + rel →
     tagged !! Z.to_nat (Z.of_nat p + rel) = Some t →
     gazetteer !! tok0 t = Some feats → last feats = Some v →
     ∃ sample label,
       samples self' !! (length (samples self) + p)%nat = Some (sample, label)
       ∧ sample !! ("GAZ" +:+ Py.fmt_signed rel) = Some v)
  ∧ (∀ x, x ∈ vocabulary self' →
       x ∈ vocabulary self ∨ ∃ t, t ∈ tagged ∧ x ∈ token_values t)
  ∧ vocabulary self'
    = vocabulary (process_sentence lower sentence fes add_unknown ∅ self).2.
Proof.
  intros Hrun Htag.
  apply process_sentence_cases in Hrun
    as [(tagged' & Htag' & Hw & _ & ->)|(e & [=] & _)].
  rewrite Htag in Htag'. injection Htag' as <-.
  split; [|split].
  - intros p rel t feats v Hp Hrel Hpos Ht Hg Hl.
    rewrite processed_sample by done. eexists _, _. split; [done|].
    by eapply window_sample_gaz.
  - apply processed_vocabulary.
  - destruct Hw as [Hw| ->].
    + by rewrite (process_sentence_run _ _ _ _ ∅ _ _ Htag Hw).
    + by rewrite (process_sentence_nil _ _ _ _ ∅ _ Htag), processed_nil.
Qed.

Lemma gazetteer_bypasses_vocabulary_witness :
  let self := Demo.extractor 1 true in
  let gazetteer : Gazetteer := {[ "Ada" := ["NAME"; "PERSON"] ]} in
  let tagged := [Tag3 "Ada" "W" "ada"; Tag3 "met" "W" "met";
                 Tag3 "Bob" "W" "bob"] in
  let run := process_sentence Demo.lower "Ada met Bob" [] false gazetteer self in
  (∃ sample label,
     samples run.2 !! (0 + 1)%nat = Some (sample, label)
     ∧ sample !! "GAZ-1" = Some "PERSON")
  ∧ "PERSON" ∉ vocabulary run.2.
Proof.
  intros self gazetteer tagged run.
  destruct (gazetteer_bypasses_vocabulary Demo.lower "Ada met Bob" [] false
              gazetteer self run.2 tagged) as (Hgaz & Hvoc & _).
  - vm_compute. reflexivity.
  - vm_compute. reflexivity.
  - split.
    + apply (Hgaz 1%nat (-1) (Tag3 "Ada" "W" "ada") ["NAME"; "PERSON"]).
      * simpl. lia.
      * simpl. lia.
      * lia.
      * reflexivity.
      * by vm_compute.
      * reflexivity.
    + intros [Hin|(t & Ht & Hin)]%Hvoc.
      * apply (bool_decide_pack _) in Hin. by vm_compute in Hin.
      * repeat (apply elem_of_cons in Ht as [->|Ht];
                  [apply (bool_decide_pack _) in Hin; by vm_compute in Hin|]).
        by apply elem_of_nil in Ht.
Defined.

(** ** The chunk scan *)

Section Scan.

Variable lower : string → string.
Variable fe_tokens : list string.

(** What a hit means: the tokens read so far are [seen], the last
    [j] of them match the first [j] chunk tokens, and the scan goes
    on over [rest]. *)
Lemma scan_from_found rest : ∀ (seen : list token) (j : nat) i',
  (j < length fe_tokens)%nat → (j ≤ length seen)%nat →
  matches lower (take j fe_tokens) (drop (length seen - j) seen) →
  scan_from lower fe_tokens rest (Py.len seen) (Z.of_nat j) = Ok (true, i') →
  ∃ pre span post,
    seen ++ rest = pre ++ span ++ post
    ∧ matches lower fe_tokens span
    ∧ Py.len pre = i' - Py.len fe_tokens + 1.
Proof.
  induction rest as [|t rest IH]; intros seen j i' Hj Hseen Hm Hscan;
    [done|].
  cbn [scan_from] in Hscan.
  destruct (getitem_in_range fe_tokens (Z.of_nat j)) as (fj & Hfj & Hget);
    [unfold Py.len; lia|].
  rewrite Nat2Z.id in Hfj.
  rewrite Hget in Hscan. cbn [mbind result_bind] in Hscan.
  assert (Py.len (seen ++ [t]) = Py.len seen + 1) as Hlen.
  { rewrite len_app. done. }
  destruct (decide (lower fj = lower (tok0 t))) as [Heq|Hne].
  - destruct (decide (Z.of_nat j + 1 = Py.len fe_tokens)) as [Hlast|Hmore].
    + injection Hscan as <-.
      exists (take (length seen - j) seen),
             (drop (length seen - j) seen ++ [t]), rest.
      split; [|split].
      * rewrite <- (app_assoc _ [t]). cbn [app].
        by rewrite app_assoc, take_drop.
      * rewrite <- (take_ge fe_tokens (S j)) by (unfold Py.len in Hlast; lia).
        rewrite (take_S_r _ _ _ Hfj).
        apply Forall2_app; [done|]. by repeat constructor.
      * unfold Py.len in *. rewrite length_take. lia.
    + rewrite <- Hlen in Hscan.
      replace (Z.of_nat j + 1) with (Z.of_nat (S j)) in Hscan by lia.
      apply IH in Hscan as (pre & span & post & Happ & ? & ?).
      * exists pre, span, post. by rewrite <- Happ, <- app_assoc.
      * unfold Py.len in Hmore. lia.
      * rewrite length_app. simpl. lia.
      * rewrite length_app. simpl.
        replace (length seen + 1 - S j)%nat with (length seen - j)%nat by lia.
        rewrite drop_app_le by lia. rewrite (take_S_r _ _ _ Hfj).
        apply Forall2_app; [done|]. by repeat constructor.
  - rewrite <- Hlen in Hscan. change 0 with (Z.of_nat 0) in Hscan.
    apply IH in Hscan as (pre & span & post & Happ & ? & ?).
    + exists pre, span, post. by rewrite <- Happ, <- app_assoc.
    + lia.
    + lia.
    + rewrite Nat.sub_0_r, drop_all, take_0. constructor.
Qed.

(** The scan itself never raises: [j] stays inside the chunk. *)
Lemma scan_from_returns rest : ∀ i (j : nat),
  (j < length fe_tokens)%nat →
  ∃ found i', scan_from lower fe_tokens rest i (Z.of_nat j) = Ok (found, i').
Proof.
  induction rest as [|t rest IH]; intros i j Hj; [by eexists _, _|].
  cbn [scan_from].
  destruct (getitem_in_range fe_tokens (Z.of_nat j)) as (fj & _ & ->);
    [unfold Py.len; lia|].
  cbn [mbind result_bind].
  destruct (decide (lower fj = lower (tok0 t))).
  - destruct (decide (Z.of_nat j + 1 = Py.len fe_tokens)); [by eexists _, _|].
    replace (Z.of_nat j + 1) with (Z.of_nat (S j)) by lia.
    apply IH. unfold Py.len in *. lia.
  - change 0 with (Z.of_nat 0). apply IH. lia.
Qed.

Lemma scan_found tagged i :
  fe_tokens ≠ [] →
  scan lower fe_tokens tagged = Ok (true, i) →
  ∃ pre span post,
    tagged = pre ++ span ++ post
    ∧ matches lower fe_tokens span
    ∧ Py.len pre = i - Py.len fe_tokens + 1.
Proof.
  intros Hne Hscan.
  apply (scan_from_found tagged [] 0%nat); [|done|constructor|done].
  destruct fe_tokens; [done|simpl; lia].
Qed.

Lemma scan_returns tagged :
  fe_tokens ≠ [] →
  ∃ found i, scan lower fe_tokens tagged = Ok (found, i).
Proof.
  intros Hne. apply (scan_from_returns tagged 0 0%nat).
  destruct fe_tokens; [done|simpl; lia].
Qed.

End Scan.

Lemma matches_length lower fe_tokens span :
  matches lower fe_tokens span → length fe_tokens = length span.
Proof. apply Forall2_length. Qed.

(** ** One frame element *)

Section Align.

Variable lower : string → string.

Lemma align_fe_none self tagged fe :
  align_fe lower self tagged (fe, None) = Ok tagged.
Proof. done. Qed.

Lemma align_fe_no_tokens self tagged fe chunk :
  tokenize (tagger self) chunk = [] →
  align_fe lower self tagged (fe, Some chunk) = Ok tagged.
Proof. intros H. unfold align_fe. by rewrite H. Qed.

Lemma align_fe_not_found self tagged fe chunk i :
  scan lower (tokenize (tagger self) chunk) tagged = Ok (false, i) →
  align_fe lower self tagged (fe, Some chunk) = Ok tagged.
Proof.
  intros H. unfold align_fe. destruct (decide _); [done|]. by rewrite H.
Qed.

(** The position and the tag of a hit. *)
Lemma align_fe_found self tagged fe chunk i pre span post :
  tokenize (tagger self) chunk ≠ [] →
  scan lower (tokenize (tagger self) chunk) tagged = Ok (true, i) →
  tagged = pre ++ span ++ post →
  length span = length (tokenize (tagger self) chunk) →
  Py.len pre = i - Py.len (tokenize (tagger self) chunk) + 1 →
  ∃ pos,
    (1 < length span → pos = "ENT")%nat
    ∧ (∀ t, span = [t] → pos = tok1 t)
    ∧ align_fe lower self tagged (fe, Some chunk)
      = if collapse_fes self then
          Ok (pre ++ [Tag4 chunk pos chunk fe] ++ post)
        else
          for_result (split_step fe) tagged
            (Py.xrange (Py.len pre) (Py.len pre + Py.len span)).
Proof.
  intros Hne Hscan -> Hlen Hpre. unfold align_fe.
  rewrite decide_False by done. rewrite Hscan. cbn [mbind result_bind].
  rewrite <- Hpre.
  assert (Py.len (tokenize (tagger self) chunk) = Py.len span) as ->.
  { unfold Py.len. by rewrite Hlen. }
  destruct span as [|t span].
  { destruct (tokenize (tagger self) chunk); done. }
  assert ((pre ++ (t :: span) ++ post) !! Z.to_nat (Py.len pre) = Some t)
    as Ht.
  { unfold Py.len. rewrite Nat2Z.id. by rewrite lookup_app_r, Nat.sub_diag. }
  rewrite (getitem_lookup _ _ _ (len_nonneg pre) Ht).
  rewrite slice_to_nonneg by apply len_nonneg.
  rewrite slice_from_nonneg
    by (pose proof (len_nonneg pre); pose proof (len_nonneg (t :: span)); lia).
  replace (Z.to_nat (Py.len pre)) with (length pre)
    by (unfold Py.len; lia).
  replace (Z.to_nat (Py.len pre + Py.len (t :: span)))
    with (length pre + length (t :: span))%nat by (unfold Py.len; lia).
  rewrite take_app_length.
  assert (drop (length pre + length (t :: span)) (pre ++ (t :: span) ++ post)
          = post) as ->.
  { rewrite app_assoc. apply drop_app_length'. by rewrite length_app. }
  destruct (decide (Py.len (t :: span) > 1)) as [Hmany|Hone].
  - exists "ENT". cbn [mbind result_bind]. split; [done|]. split; [|done].
    intros t' [= -> ->]. unfold Py.len in Hmany. simpl in Hmany. lia.
  - exists (tok1 t). cbn [mbind result_bind].
    split; [unfold Py.len in Hone; lia|]. split; [|done].
    by intros t' [= ->].
Qed.

(** The split loop relabels a span of raw tokens in place. *)

Lemma split_loop_run fe post span : ∀ pre,
  Forall (λ t, tok_len t = 3) span →
  for_result (split_step fe) (pre ++ span ++ post)
    (Py.xrange (Py.len pre) (Py.len pre + Py.len span))
  = Ok (pre ++ (relabel fe <$> span) ++ post).
Proof.
  induction span as [|t span IH]; intros pre Hraw.
  - rewrite xrange_nil by (unfold Py.len; simpl; lia). done.
  - apply Forall_cons in Hraw as [Ht Hraw].
    rewrite xrange_cons by (unfold Py.len; simpl; lia).
    cbn [for_result]. unfold split_step at 1.
    assert ((pre ++ (t :: span) ++ post) !! Z.to_nat (Py.len pre) = Some t)
      as Hlook.
    { unfold Py.len. rewrite Nat2Z.id.
      by rewrite lookup_app_r, Nat.sub_diag. }
    rewrite (getitem_lookup _ _ _ (len_nonneg pre) Hlook).
    cbn [mbind result_bind].
    destruct t as [w p l|]; [|done]. cbn [unpack3 mbind result_bind].
    rewrite setitem_in_range
      by (rewrite len_app; pose proof (len_nonneg pre);
          unfold Py.len; simpl; lia).
    unfold Py.len at 1. rewrite Nat2Z.id.
    rewrite insert_app_r_alt, Nat.sub_diag by done. cbn [app insert list_insert].
    specialize (IH (pre ++ [Tag4 w p "ENT" fe]) Hraw).
    rewrite <- !app_assoc in IH. cbn [app] in IH.
    replace (Py.len (pre ++ [Tag4 w p "ENT" fe])) with (Py.len pre + 1) in IH
      by (by rewrite len_app).
    replace (Py.len pre + Py.len (Tag3 w p l :: span))
      with (Py.len pre + 1 + Py.len span) by (unfold Py.len; simpl; lia).
    exact IH.
Qed.

(** It stops with [ValueError] at the first token of the span that an
    earlier frame element has labelled. *)
Lemma split_loop_raises fe post span : ∀ pre,
  Exists (λ t, tok_len t = 4) span →
  for_result (split_step fe) (pre ++ span ++ post)
    (Py.xrange (Py.len pre) (Py.len pre + Py.len span))
  = Raise ValueError.
Proof.
  induction span as [|t span IH]; intros pre Hex.
  - by apply Exists_nil in Hex.
  - rewrite xrange_cons by (unfold Py.len; simpl; lia).
    cbn [for_result]. unfold split_step at 1.
    assert ((pre ++ (t :: span) ++ post) !! Z.to_nat (Py.len pre) = Some t)
      as Hlook.
    { unfold Py.len. rewrite Nat2Z.id.
      by rewrite lookup_app_r, Nat.sub_diag. }
    rewrite (getitem_lookup _ _ _ (len_nonneg pre) Hlook).
    cbn [mbind result_bind].
    destruct t as [w p l|]; [|done]. cbn [unpack3 mbind result_bind].
    apply Exists_cons in Hex as [?|Hex]; [done|].
    rewrite setitem_in_range
      by (rewrite len_app; pose proof (len_nonneg pre);
          unfold Py.len; simpl; lia).
    unfold Py.len at 1. rewrite Nat2Z.id.
    rewrite insert_app_r_alt, Nat.sub_diag by done. cbn [app insert list_insert].
    specialize (IH (pre ++ [Tag4 w p "ENT" fe]) Hex).
    rewrite <- !app_assoc in IH. cbn [app] in IH.
    replace (Py.len (pre ++ [Tag4 w p "ENT" fe])) with (Py.len pre + 1) in IH
      by (by rewrite len_app).
    replace (Py.len pre + Py.len (Tag3 w p l :: span))
      with (Py.len pre + 1 + Py.len span) by (unfold Py.len; simpl; lia).
    exact IH.
Qed.

End Align.

(** ** The aligner *)

(** One entry in collapse mode, on the tokens the entries before it
    left: the chunk that the scan finds takes the place of its span. *)
Lemma align_fe_collapse_span lower self tagged fe chunk i :
  collapse_fes self = true →
  tokenize (tagger self) chunk ≠ [] →
  scan lower (tokenize (tagger self) chunk) tagged = Ok (true, i) →
  ∃ pre span post pos,
    tagged = pre ++ span ++ post
    ∧ Py.len pre = i - Py.len (tokenize (tagger self) chunk) + 1
    ∧ matches lower (tokenize (tagger self) chunk) span
    ∧ (1 < length (tokenize (tagger self) chunk) → pos = "ENT")%nat
    ∧ (∀ t, span = [t] → pos = tok1 t)
    ∧ align_fe lower self tagged (fe, Some chunk)
      = Ok (pre ++ [Tag4 chunk pos chunk fe] ++ post).
Proof.
  intros Hcollapse Hne Hscan.
  destruct (scan_found lower _ _ _ Hne Hscan)
    as (pre & span & post & Htag & Hm & Hlen).
  pose proof (matches_length _ _ _ Hm) as Hspan.
  destruct (align_fe_found lower self tagged fe chunk i pre span post)
    as (pos & Hent & Hone & Halign); [done..|].
  exists pre, span, post, pos. rewrite Hcollapse in Halign.
  rewrite Hspan. done.
Qed.

(** The entries of an FE map are applied one after the other: the
    aligner on [earlier ++ later] goes on from what it returns on
    [earlier]. *)
Lemma sentence_to_tokens_app lower self sentence earlier later tagged :
  sentence_to_tokens lower self sentence earlier = Ok tagged →
  sentence_to_tokens lower self sentence (earlier ++ later)
  = for_result (align_fe lower self) tagged later.
Proof.
  unfold sentence_to_tokens.
  generalize (of_triple <$> tag_one (tagger self) sentence). intros raw.
  revert raw. induction earlier as [|entry earlier IH]; intros raw Hrun.
  - by injection Hrun as ->.
  - cbn [app for_result] in *.
    destruct (align_fe lower self raw entry) as [raw1|]; [|done]. by apply IH.
Qed.

Lemma sentence_to_tokens_entry lower self sentence earlier entry later tagged :
  sentence_to_tokens lower self sentence earlier = Ok tagged →
  sentence_to_tokens lower self sentence (earlier ++ entry :: later)
  = match align_fe lower self tagged entry with
    | Ok tagged' => for_result (align_fe lower self) tagged' later
    | Raise e => Raise e
    end.
Proof. intros Hrun. by rewrite (sentence_to_tokens_app _ _ _ _ _ _ Hrun). Qed.

(** C5: in collapse mode, when the chunk of an entry of the FE map is
    matched in the tokens [tagged] that [sentence_to_tokens] has after
    the entries before it, the aligner replaces the whole matched span
    by the one token [(chunk, pos, chunk, fe)]: [sentence_to_tokens]
    on the map up to and including that entry returns the tokens
    before the span, the new token, and the tokens after the span, all
    others unchanged, and the entries after it go on from that list.
    [pos] is ['ENT'] for a chunk of several tokens and the tag of the
    matched token for a chunk of one.  With no entry before, [tagged]
    is the tagger's sequence. *)
Theorem collapse_replaces_span lower self sentence earlier fe chunk tagged i :
  collapse_fes self = true →
  sentence_to_tokens lower self sentence earlier = Ok tagged →
  tokenize (tagger self) chunk ≠ [] →
  scan lower (tokenize (tagger self) chunk) tagged = Ok (true, i) →
  ∃ pre span post pos,
    tagged = pre ++ span ++ post
    ∧ Py.len pre = i - Py.len (tokenize (tagger self) chunk) + 1
    ∧ matches lower (tokenize (tagger self) chunk) span
    ∧ (1 < length (tokenize (tagger self) chunk) → pos = "ENT")%nat
    ∧ (∀ t, span = [t] → pos = tok1 t)
    ∧ align_fe lower self tagged (fe, Some chunk)
      = Ok (pre ++ [Tag4 chunk pos chunk fe] ++ post)
    ∧ sentence_to_tokens lower self sentence (earlier ++ [(fe, Some chunk)])
      = Ok (pre ++ [Tag4 chunk pos chunk fe] ++ post)
    ∧ ∀ later,
        sentence_to_tokens lower self sentence
          (earlier ++ (fe, Some chunk) :: later)
        = for_result (align_fe lower self)
            (pre ++ [Tag4 chunk pos chunk fe] ++ post) later.
Proof.
  intros Hcollapse Hearlier Hne Hscan.
  destruct (align_fe_collapse_span lower self tagged fe chunk i
              Hcollapse Hne Hscan)
    as (pre & span & post & pos & Htag & Hlen & Hm & Hent & Hone & Halign).
  exists pre, span, post, pos. repeat split; try done.
  - rewrite (sentence_to_tokens_entry _ _ _ _ _ _ _ Hearlier).
    by rewrite Halign.
  - intros later. rewrite (sentence_to_tokens_entry _ _ _ _ _ _ _ Hearlier).
    by rewrite Halign.
Qed.

Lemma collapse_replaces_span_witness :
  let self := Demo.extractor 2 true in
  let sentence := "John Smith killed the mayor" in
  let earlier := [("Perpetrator", Some "john smith")] in
  let tagged := [Tag4 "john smith" "ENT" "john smith" "Perpetrator";
                 Tag3 "killed" "W" "killed"; Tag3 "the" "W" "the";
                 Tag3 "mayor" "W" "mayor"] in
  ∃ pre span post pos,
    tagged = pre ++ span ++ post
    ∧ Py.len pre = 3 - Py.len (tokenize (tagger self) "The Mayor") + 1
    ∧ matches Demo.lower (tokenize (tagger self) "The Mayor") span
    ∧ (1 < length (tokenize (tagger self) "The Mayor") → pos = "ENT")%nat
    ∧ (∀ t, span = [t] → pos = tok1 t)
    ∧ align_fe Demo.lower self tagged ("Victim", Some "The Mayor")
      = Ok (pre ++ [Tag4 "The Mayor" pos "The Mayor" "Victim"] ++ post)
    ∧ sentence_to_tokens Demo.lower self sentence
        (earlier ++ [("Victim", Some "The Mayor")])
      = Ok (pre ++ [Tag4 "The Mayor" pos "The Mayor" "Victim"] ++ post)
    ∧ ∀ later,
        sentence_to_tokens Demo.lower self sentence
          (earlier ++ ("Victim", Some "The Mayor") :: later)
        = for_result (align_fe Demo.lower self)
            (pre ++ [Tag4 "The Mayor" pos "The Mayor" "Victim"] ++ post) later.
Proof.
  apply (collapse_replaces_span Demo.lower (Demo.extractor 2 true)
           "John Smith killed the mayor" [("Perpetrator", Some "john smith")]
           "Victim" "The Mayor").
  - reflexivity.
  - by vm_compute.
  - by vm_compute.
  - by vm_compute.
Defined.

(** The same sentence, as [sentence_to_tokens] returns it for the two
    entries: the span "the mayor" is one token, the rest is as the
    entry before left it. *)
Example collapse_replaces_span_example :
  sentence_to_tokens Demo.lower (Demo.extractor 2 true)
    "John Smith killed the mayor"
    [("Perpetrator", Some "john smith"); ("Victim", Some "The Mayor")]
  = Ok [Tag4 "john smith" "ENT" "john smith" "Perpetrator";
        Tag3 "killed" "W" "killed";
        Tag4 "The Mayor" "ENT" "The Mayor" "Victim"].
Proof. by vm_compute. Qed.

(** One entry in split mode, on the tokens the entries before it left:
    raw tokens of the span are relabelled, a token that already has a
    frame element stops the entry with [ValueError]. *)
Lemma align_fe_split_span lower self tagged fe chunk i :
  collapse_fes self = false →
  tokenize (tagger self) chunk ≠ [] →
  scan lower (tokenize (tagger self) chunk) tagged = Ok (true, i) →
  ∃ pre span post,
    tagged = pre ++ span ++ post
    ∧ Py.len pre = i - Py.len (tokenize (tagger self) chunk) + 1
    ∧ matches lower (tokenize (tagger self) chunk) span
    ∧ (Forall (λ t, tok_len t = 3) span →
       align_fe lower self tagged (fe, Some chunk)
       = Ok (pre ++ (relabel fe <$> span) ++ post))
    ∧ (Exists (λ t, tok_len t = 4) span →
       align_fe lower self tagged (fe, Some chunk) = Raise ValueError).
Proof.
  intros Hsplit Hne Hscan.
  destruct (scan_found lower _ _ _ Hne Hscan)
    as (pre & span & post & Htag & Hm & Hlen).
  pose proof (matches_length _ _ _ Hm) as Hspan.
  destruct (align_fe_found lower self tagged fe chunk i pre span post)
    as (pos & _ & _ & Halign); [done..|].
  exists pre, span, post. rewrite Hsplit in Halign.
  rewrite Halign, Htag. repeat split; [done..| |].
  - apply split_loop_run.
  - apply split_loop_raises.
Qed.

(** In split mode, when the chunk of an entry of the FE map is found in
    the tokens [tagged] that [sentence_to_tokens] has after the entries
    before it: if the span holds raw tokens only, [sentence_to_tokens]
    on the map up to that entry returns the same tokens with every
    token of the span keeping its word and tag and getting the lemma
    ['ENT'] and the frame element, and the entries after it go on from
    that list; if the span holds a token that an earlier entry
    labelled, [sentence_to_tokens] raises [ValueError], whatever
    entries follow. *)
Theorem split_relabels_span lower self sentence earlier fe chunk tagged i :
  collapse_fes self = false →
  sentence_to_tokens lower self sentence earlier = Ok tagged →
  tokenize (tagger self) chunk ≠ [] →
  scan lower (tokenize (tagger self) chunk) tagged = Ok (true, i) →
  ∃ pre span post,
    tagged = pre ++ span ++ post
    ∧ Py.len pre = i - Py.len (tokenize (tagger self) chunk) + 1
    ∧ matches lower (tokenize (tagger self) chunk) span
    ∧ (Forall (λ t, tok_len t = 3) span →
       sentence_to_tokens lower self sentence (earlier ++ [(fe, Some chunk)])
       = Ok (pre ++ (relabel fe <$> span) ++ post)
       ∧ ∀ later,
           sentence_to_tokens lower self sentence
             (earlier ++ (fe, Some chunk) :: later)
           = for_result (align_fe lower self)
               (pre ++ (relabel fe <$> span) ++ post) later)
    ∧ (Exists (λ t, tok_len t = 4) span →
       ∀ later,
         sentence_to_tokens lower self sentence
           (earlier ++ (fe, Some chunk) :: later)
         = Raise ValueError).
Proof.
  intros Hsplit Hearlier Hne Hscan.
  destruct (align_fe_split_span lower self tagged fe chunk i Hsplit Hne Hscan)
    as (pre & span & post & Htag & Hlen & Hm & Hraw & Hlabelled).
  exists pre, span, post. repeat split; try done.
  - rewrite (sentence_to_tokens_entry _ _ _ _ _ _ _ Hearlier).
    by rewrite Hraw.
  - intros later. rewrite (sentence_to_tokens_entry _ _ _ _ _ _ _ Hearlier).
    by rewrite Hraw.
  - intros Hex later.
    rewrite (sentence_to_tokens_entry _ _ _ _ _ _ _ Hearlier).
    by rewrite Hlabelled.
Qed.

(** C4, on the code: two frame elements over the same tokens.  In
    collapse mode the later one replaces the token of the earlier one;
    in split mode the later one finds a token that already has four
    components, and the unpacking into three raises [ValueError]. *)
Theorem overlapping_fes_collapse_and_split :
  let fes := [("Office", Some "mayor"); ("Victim", Some "the mayor")] in
  sentence_to_tokens Demo.lower (Demo.extractor 2 true)
    "John Smith killed the mayor" fes
  = Ok [Tag3 "John" "W" "john"; Tag3 "Smith" "W" "smith";
        Tag3 "killed" "W" "killed";
        Tag4 "the mayor" "ENT" "the mayor" "Victim"]
  ∧ sentence_to_tokens Demo.lower (Demo.extractor 2 false)
      "John Smith killed the mayor" fes
    = Raise ValueError.
Proof. split; by vm_compute. Qed.

(** C6: when every entry of the FE map is [None] or a chunk without
    tokens (the empty map included), the result is the tagger's
    sequence: same words, tags and lemmas in the same order, and no
    token has a frame element. *)
Theorem unrealized_fes_keep_tagger_tokens lower self sentence fes :
  Forall (λ entry : string * option string,
            entry.2 = None
            ∨ ∃ chunk, entry.2 = Some chunk
                ∧ tokenize (tagger self) chunk = []) fes →
  ∃ tokens,
    sentence_to_tokens lower self sentence fes = Ok tokens
    ∧ (λ t, (tok0 t, tok1 t, tok2 t)) <$> tokens
      = tag_one (tagger self) sentence
    ∧ Forall (λ t, tok_len t = 3 ∧ label_of t = "O") tokens.
Proof.
  intros Hfes. exists (of_triple <$> tag_one (tagger self) sentence).
  split; [|split].
  - unfold sentence_to_tokens.
    generalize (of_triple <$> tag_one (tagger self) sentence). intros tagged.
    induction Hfes as [|[fe chunk] fes Hentry _ IH]; [done|].
    cbn [for_result].
    assert (align_fe lower self tagged (fe, chunk) = Ok tagged) as ->; [|done].
    destruct Hentry as [Hnone|(text & Hsome & Hempty)]; cbn [snd] in *; subst.
    + apply align_fe_none.
    + by apply align_fe_no_tokens.
  - rewrite <- list_fmap_compose. rewrite <- (list_fmap_id (tag_one _ _)) at 2.
    apply list_fmap_ext. by intros _ [[w p] l] _.
  - apply Forall_fmap, Forall_true. by intros [[w p] l].
Qed.

Lemma unrealized_fes_keep_tagger_tokens_witness :
  ∃ tokens,
    sentence_to_tokens Demo.lower (Demo.extractor 2 true) "Ada met Bob"
      [("Who", None); ("Whom", Some "  ")] = Ok tokens
    ∧ (λ t, (tok0 t, tok1 t, tok2 t)) <$> tokens
      = tag_one (tagger (Demo.extractor 2 true)) "Ada met Bob"
    ∧ Forall (λ t, tok_len t = 3 ∧ label_of t = "O") tokens.
Proof.
  apply (unrealized_fes_keep_tagger_tokens Demo.lower (Demo.extractor 2 true)
           "Ada met Bob" [("Who", None); ("Whom", Some "  ")]).
  apply Forall_cons. split; [left; reflexivity|].
  apply Forall_cons. split; [|apply Forall_nil_2].
  right. exists "  ". split; reflexivity.
Defined.

(** C3: the scan can miss a chunk that is there.  In "New New York" the
    chunk "new york" occurs at tokens 1-2; the scan matches "New" at
    token 0, fails on token 1 against "york", restarts at token 2, and
    never tries "new" at token 1.  The chunk is reported as not found
    and the tokens come back without the frame element, in both modes. *)
Theorem scan_misses_recurring_first_token :
  ∃ (sentence fe chunk : string), ∀ collapse : bool,
    let self := Demo.extractor 2 collapse in
    let tagged := of_triple <$> tag_one (tagger self) sentence in
    let fe_tokens := tokenize (tagger self) chunk in
    fe_tokens ≠ []
    ∧ (∃ pre span post,
         tagged = pre ++ span ++ post ∧ matches Demo.lower fe_tokens span)
    ∧ scan Demo.lower fe_tokens tagged = Ok (false, Py.len tagged)
    ∧ sentence_to_tokens Demo.lower self sentence [(fe, Some chunk)]
      = Ok tagged
    ∧ Forall (λ t, label_of t = "O") tagged.
Proof.
  exists "New New York", "Place", "new york". intros collapse.
  split; [done|]. split; [|split; [|split]].
  - exists [Tag3 "New" "W" "new"],
           [Tag3 "New" "W" "new"; Tag3 "York" "W" "york"], [].
    split; [by vm_compute|]. by repeat constructor.
  - by vm_compute.
  - by destruct collapse; vm_compute.
  - by repeat constructor.
Qed.

(** The same for any chunk [x y] after a repeated [x], whatever
    [lower] is. *)
Lemma scan_misses_after_repeat lower x y (t0 t1 t2 : token) :
  lower x = lower (tok0 t0) → lower x = lower (tok0 t1) →
  lower y = lower (tok0 t2) → lower y ≠ lower (tok0 t1) →
  lower x ≠ lower (tok0 t2) →
  scan lower [x; y] [t0; t1; t2] = Ok (false, 3).
Proof.
  intros H0 H1 H2 Hy Hx. unfold scan. cbn [scan_from].
  rewrite (getitem_lookup [x; y] 0 x) by done. cbn [mbind result_bind].
  rewrite (decide_True (P := lower x = lower (tok0 t0))) by done.
  rewrite (decide_False (P := 0 + 1 = Py.len [x; y])) by done.
  rewrite (getitem_lookup [x; y] (0 + 1) y) by done. cbn [mbind result_bind].
  rewrite (decide_False (P := lower y = lower (tok0 t1))) by done.
  rewrite (decide_False (P := lower x = lower (tok0 t2))) by done.
  done.
Qed.

(** ** The finalizer *)

Section Finalizer.

Variable Matrix : Type.
Variable fit_transform : list Sample → Matrix.

Lemma label_index_lookup (labels : gset string) label :
  label ∈ labels → is_Some (label_index_of labels !! label).
Proof.
  intros Hin. unfold label_index_of.
  apply not_eq_None_Some. rewrite <- not_elem_of_list_to_map.
  rewrite fst_zip by (rewrite xrange_length; unfold Py.len; lia).
  intros Hnot. apply Hnot. by apply elem_of_elements.
Qed.

Lemma label_loop_run (index : gmap string Z) (labels : list string) :
  ∀ acc,
  Forall (λ label, is_Some (index !! label)) labels →
  ∃ indices, length indices = length labels
    ∧ for_result (λ acc label,
                    match index !! label with
                    | Some i => Ok (acc ++ [i])
                    | None => Raise KeyError
                    end) acc labels
      = Ok (acc ++ indices).
Proof.
  induction labels as [|label labels IH]; intros acc Hall.
  - exists []. by rewrite app_nil_r.
  - apply Forall_cons in Hall as [[i Hi] Hall]. cbn [for_result].
    rewrite Hi. destruct (IH (acc ++ [i]) Hall) as (indices & Hlen & ->).
    exists (i :: indices). split; [simpl; lia|]. by rewrite <- app_assoc.
Qed.

(** With samples whose labels are all in the label set, the finalizer
    returns the matrix of the samples and one index per sample. *)
Lemma get_features_returns self :
  samples self ≠ [] →
  Forall (λ sl : Sample * string, sl.2 ∈ labels self) (samples self) →
  ∃ indices,
    length indices = length (samples self)
    ∧ get_features Matrix fit_transform self
      = Ok (fit_transform (samples self).*1, indices).
Proof.
  intros Hne Hall. unfold get_features.
  destruct (samples self) as [|sl smp] eqn:Hs; [done|]. cbn [zip_star].
  destruct (label_loop_run (label_index_of (labels self)) ((sl :: smp).*2) [])
    as (indices & Hlen & Hrun).
  { apply Forall_fmap. eapply Forall_impl; [exact Hall|].
    intros [s l] Hl. by apply label_index_lookup. }
  rewrite Hrun. exists indices. split; [|done].
  by rewrite Hlen, length_fmap.
Qed.

(** C8: with no accumulated sample the finalizer raises; there is
    nothing to unpack into [samples, labels], and no matrix is
    built. *)
Theorem get_features_empty_raises self :
  samples self = [] →
  get_features Matrix fit_transform self = Raise ValueError.
Proof. intros Hs. unfold get_features. by rewrite Hs. Qed.

End Finalizer.

Lemma get_features_empty_raises_witness :
  get_features (list Sample) id (Demo.extractor 2 true) = Raise ValueError.
Proof.
  apply (get_features_empty_raises (list Sample) id (Demo.extractor 2 true)).
  reflexivity.
Defined.

(** After one sentence the finalizer returns. *)
Example get_features_after_sentence :
  let run := process_sentence Demo.lower "Ada met Bob" [("Who", Some "bob")]
               true ∅ (Demo.extractor 1 true) in
  ∃ matrix, get_features (list Sample) id run.2 = Ok (matrix, [0; 1; 1]).
Proof. eexists. vm_compute. reflexivity. Qed.

(** ** Pickling *)

(** C9: restoring a saved state gives an extractor with the same seven
    persisted fields: language, unknown sentinel, window width,
    samples, vocabulary, label set and collapse flag. *)
Theorem setstate_getstate TTPosTagger self :
  let self' := setstate TTPosTagger (getstate self) in
  language self' = language self
  ∧ unk_feature self' = unk_feature self
  ∧ window_width self' = window_width self
  ∧ samples self' = samples self
  ∧ vocabulary self' = vocabulary self
  ∧ labels self' = labels self
  ∧ collapse_fes self' = collapse_fes self
  ∧ getstate self' = getstate self.
Proof. by destruct self. Qed.

(** The tagger is not saved: it is built again for the language. *)
Lemma setstate_tagger TTPosTagger state :
  tagger (setstate TTPosTagger state)
  = TTPosTagger (language (setstate TTPosTagger state)).
Proof. by destruct state as [[[[[[? ?] ?] ?] ?] ?] ?]. Qed.

Lemma getstate_setstate TTPosTagger state :
  getstate (setstate TTPosTagger state) = state.
Proof. by destruct state as [[[[[[? ?] ?] ?] ?] ?] ?]. Qed.

(** ** The worked example of the specification *)

(** "John Smith killed the mayor" with the two chunks collapsed leaves
    three tokens. *)
Example john_smith_collapsed :
  sentence_to_tokens Demo.lower (Demo.extractor 1 true)
    "John Smith killed the mayor"
    [("Victim", Some "the mayor"); ("Perpetrator", Some "John Smith")]
  = Ok [Tag4 "John Smith" "ENT" "John Smith" "Perpetrator";
        Tag3 "killed" "W" "killed";
        Tag4 "the mayor" "ENT" "the mayor" "Victim"].
Proof. by vm_compute. Qed.

(** The same sentence with the chunks kept split. *)
Example john_smith_split :
  sentence_to_tokens Demo.lower (Demo.extractor 1 false)
    "John Smith killed the mayor"
    [("Victim", Some "the mayor"); ("Perpetrator", Some "John Smith")]
  = Ok [Tag4 "John" "W" "ENT" "Perpetrator";
        Tag4 "Smith" "W" "ENT" "Perpetrator";
        Tag3 "killed" "W" "killed";
        Tag4 "the" "W" "ENT" "Victim"; Tag4 "mayor" "W" "ENT" "Victim"].
Proof. by vm_compute. Qed.


(** * Further properties of the extractor *)

(** ** Outcomes of [process_sentence] *)

Lemma sentence_to_tokens_accumulators lower self smp voc lab sentence fes :
  sentence_to_tokens lower (with_accumulators self smp voc lab) sentence fes
  = sentence_to_tokens lower self sentence fes.
Proof. reflexivity. Qed.

(** A call that raises leaves the extractor exactly as it was: the
    exception is the aligner's, or [UnboundLocalError] from a negative
    window width on a sentence with tokens. *)
Theorem failed_call_leaves_extractor lower sentence fes add_unknown gazetteer
    self e self' :
  process_sentence lower sentence fes add_unknown gazetteer self
  = (Raise e, self') →
  self' = self
  ∧ (sentence_to_tokens lower self sentence fes = Raise e
     ∨ e = UnboundLocalError ∧ window_width self < 0
       ∧ ∃ tagged, sentence_to_tokens lower self sentence fes = Ok tagged
           ∧ tagged ≠ []).
Proof.
  intros Hrun.
  destruct (sentence_to_tokens lower self sentence fes) as [tagged|e'] eqn:Htag.
  - destruct (decide (0 ≤ window_width self)) as [Hw|Hw].
    { by rewrite (process_sentence_run _ _ _ _ _ _ _ Htag Hw) in Hrun. }
    destruct (decide (tagged = [])) as [->|Hne].
    { by rewrite (process_sentence_nil _ _ _ _ _ _ Htag) in Hrun. }
    rewrite (process_sentence_unbound _ _ _ _ _ _ _ Htag Hne) in Hrun by lia.
    injection Hrun as <- <-. split; [done|]. right.
    split; [done|]. split; [lia|]. by exists tagged.
  - rewrite (process_sentence_raise _ _ _ _ _ _ _ Htag) in Hrun.
    injection Hrun as <- <-. auto.
Qed.

Lemma failed_call_leaves_extractor_witness :
  let self := Demo.extractor (-1) true in
  let run := process_sentence Demo.lower "Ada met Bob" [] true ∅ self in
  run.2 = self
  ∧ (sentence_to_tokens Demo.lower self "Ada met Bob" [] = Raise UnboundLocalError
     ∨ UnboundLocalError = UnboundLocalError ∧ window_width self < 0
       ∧ ∃ tagged, sentence_to_tokens Demo.lower self "Ada met Bob" [] = Ok tagged
           ∧ tagged ≠ []).
Proof.
  apply (failed_call_leaves_extractor Demo.lower "Ada met Bob" [] true ∅
           (Demo.extractor (-1) true) UnboundLocalError).
  vm_compute. reflexivity.
Defined.

(** A call returns exactly when the aligner returns and the window
    width is not negative or the sentence has no token. *)
Theorem process_sentence_returns_iff lower sentence fes add_unknown gazetteer
    self :
  (process_sentence lower sentence fes add_unknown gazetteer self).1 = Ok tt
  ↔ ∃ tagged, sentence_to_tokens lower self sentence fes = Ok tagged
      ∧ (0 ≤ window_width self ∨ tagged = []).
Proof.
  split.
  - intros Hok.
    destruct (process_sentence lower sentence fes add_unknown gazetteer self)
      as [r self'] eqn:Hrun. simpl in Hok. subst r.
    apply process_sentence_cases in Hrun
      as [(tagged & Htag & Hw & _)|(e & [=] & _)]. eauto.
  - intros (tagged & Htag & [Hw| ->]).
    + by rewrite (process_sentence_run _ _ _ _ _ _ _ Htag Hw).
    + by rewrite (process_sentence_nil _ _ _ _ _ _ Htag).
Qed.

(** A returning call appends one sample per token, after the samples
    already there, and touches none of the configuration. *)
Theorem process_sentence_appends_per_token lower sentence fes add_unknown
    gazetteer self self' tagged :
  process_sentence lower sentence fes add_unknown gazetteer self
  = (Ok tt, self') →
  sentence_to_tokens lower self sentence fes = Ok tagged →
  length (samples self') = (length (samples self) + length tagged)%nat
  ∧ take (length (samples self)) (samples self') = samples self
  ∧ language self' = language self ∧ tagger self' = tagger self
  ∧ window_width self' = window_width self
  ∧ collapse_fes self' = collapse_fes self
  ∧ unk_feature self' = unk_feature self.
Proof.
  intros Hrun Htag.
  apply process_sentence_cases in Hrun
    as [(tagged' & Htag' & _ & _ & ->)|(e & [=] & _)].
  rewrite Htag in Htag'. injection Htag' as <-.
  split; [apply processed_samples_length|].
  split; [|done].
  unfold processed. cbn [samples with_accumulators]. apply take_app_length.
Qed.

Lemma process_sentence_appends_per_token_witness :
  let self := Demo.extractor 1 true in
  let run := process_sentence Demo.lower "Ada met Bob" [("Who", Some "met bob")]
               true ∅ self in
  length (samples run.2) = (length (samples self) + 2)%nat
  ∧ take (length (samples self)) (samples run.2) = samples self
  ∧ language run.2 = language self ∧ tagger run.2 = tagger self
  ∧ window_width run.2 = window_width self
  ∧ collapse_fes run.2 = collapse_fes self
  ∧ unk_feature run.2 = unk_feature self.
Proof.
  apply (process_sentence_appends_per_token Demo.lower "Ada met Bob"
           [("Who", Some "met bob")] true ∅ (Demo.extractor 1 true) _
           [Tag3 "Ada" "W" "ada"; Tag4 "met bob" "ENT" "met bob" "Who"]).
  - vm_compute. reflexivity.
  - vm_compute. reflexivity.
Defined.

(** ** The empty sentence *)

Lemma align_fe_nil lower self entry : align_fe lower self [] entry = Ok [].
Proof.
  destruct entry as [fe [chunk|]]; [|done]. unfold align_fe.
  by destruct (decide (tokenize (tagger self) chunk = [])).
Qed.

Lemma sentence_to_tokens_nil lower self sentence fes :
  tag_one (tagger self) sentence = [] →
  sentence_to_tokens lower self sentence fes = Ok [].
Proof.
  intros Hnone. unfold sentence_to_tokens. rewrite Hnone. simpl.
  induction fes as [|entry fes IH]; [done|].
  cbn [for_result]. by rewrite align_fe_nil.
Qed.

(** When the tagger finds no token the call returns and the extractor
    is unchanged, for every FE map, mode, gazetteer and window width. *)
Theorem process_empty_sentence lower sentence fes add_unknown gazetteer self :
  tag_one (tagger self) sentence = [] →
  process_sentence lower sentence fes add_unknown gazetteer self
  = (Ok tt, self).
Proof.
  intros Hnone. apply process_sentence_nil.
  by apply sentence_to_tokens_nil.
Qed.

Lemma process_empty_sentence_witness :
  process_sentence Demo.lower "   " [("Who", Some "bob")] true
    {[ "Ada" := ["PERSON"] ]} (Demo.extractor (-3) false)
  = (Ok tt, Demo.extractor (-3) false).
Proof.
  apply (process_empty_sentence Demo.lower "   " [("Who", Some "bob")] true
           {[ "Ada" := ["PERSON"] ]} (Demo.extractor (-3) false)).
  reflexivity.
Defined.


(** ** The vocabulary after a training call *)

Lemma window_contains_position width n position :
  0 ≤ width → 0 ≤ position < n → position ∈ window width n position.
Proof. intros. apply elem_of_window. lia. Qed.

Lemma window_tokens_cover tagged width t :
  0 ≤ width → t ∈ tagged →
  t ∈ mjoin (window_tokens tagged width <$> Py.xrange 0 (Py.len tagged)).
Proof.
  intros Hw (k & Hk)%list_elem_of_lookup_1.
  pose proof (lookup_lt_Some _ _ _ Hk) as Hlt.
  apply list_elem_of_join. exists (window_tokens tagged width (Z.of_nat k)).
  split.
  - unfold window_tokens. apply list_elem_of_omap. exists (Z.of_nat k).
    split; [|by rewrite Nat2Z.id].
    apply window_contains_position; [done|unfold Py.len; lia].
  - apply list_elem_of_fmap. exists (Z.of_nat k). split; [done|].
    apply elem_of_xrange. unfold Py.len. lia.
Qed.

(** In training mode ([add_unknown = True]) a returning call leaves the
    vocabulary with exactly the old members and the word, tag and
    lemma of every token of the sentence. *)
Theorem vocabulary_after_training lower sentence fes gazetteer self self'
    tagged :
  process_sentence lower sentence fes true gazetteer self = (Ok tt, self') →
  sentence_to_tokens lower self sentence fes = Ok tagged →
  vocabulary self' = vocabulary self ∪ ⋃ (token_values <$> tagged).
Proof.
  intros Hrun Htag.
  apply process_sentence_cases in Hrun
    as [(tagged' & Htag' & Hw & _ & ->)|(e & [=] & _)].
  rewrite Htag in Htag'. injection Htag' as <-.
  unfold processed. cbn [vocabulary with_accumulators]. unfold learn.
  destruct Hw as [Hw| ->]; [|done].
  apply set_eq. intros x. rewrite !elem_of_union, !elem_of_union_list.
  split; (intros [?|(X & HX & Hx)]; [by left|right]).
  - apply list_elem_of_fmap in HX as (t & -> & Ht).
    exists (token_values t). split; [|done].
    apply list_elem_of_fmap. exists t. split; [done|].
    apply list_elem_of_join in Ht as (ts & Ht & Hts).
    apply list_elem_of_fmap in Hts as (p & -> & _).
    by eapply elem_of_window_tokens.
  - apply list_elem_of_fmap in HX as (t & -> & Ht).
    exists (token_values t). split; [|done].
    apply list_elem_of_fmap. exists t. split; [done|].
    by apply window_tokens_cover.
Qed.

Lemma vocabulary_after_training_witness :
  let self := Demo.extractor 0 true in
  let run := process_sentence Demo.lower "Ada met Bob" [] true ∅ self in
  vocabulary run.2
  = vocabulary self
    ∪ ⋃ (token_values <$> [Tag3 "Ada" "W" "ada"; Tag3 "met" "W" "met";
                            Tag3 "Bob" "W" "bob"]).
Proof.
  apply (vocabulary_after_training Demo.lower "Ada met Bob" [] ∅
           (Demo.extractor 0 true)).
  - vm_compute. reflexivity.
  - vm_compute. reflexivity.
Defined.

(** ** The features of a sample, offset by offset *)

Lemma feature_name_inj kind kind' a b :
  kind ∈ ["TERM"; "POS"; "LEMMA"; "GAZ"] →
  kind' ∈ ["TERM"; "POS"; "LEMMA"; "GAZ"] →
  kind +:+ Py.fmt_signed a = kind' +:+ Py.fmt_signed b →
  kind = kind' ∧ a = b.
Proof.
  intros Hk Hk' Heq.
  repeat (apply elem_of_cons in Hk as [->|Hk]);
    [| | | |by apply elem_of_nil in Hk];
    (repeat (apply elem_of_cons in Hk' as [->|Hk']);
       [| | | |by apply elem_of_nil in Hk']);
    try done;
    (split; [done|]; apply fmt_signed_inj; by simplify_eq/=).
Qed.

Lemma unk_not_feature kind rel :
  kind ∈ ["TERM"; "POS"; "LEMMA"; "GAZ"] →
  "unk" ≠ kind +:+ Py.fmt_signed rel.
Proof.
  intros Hk.
  repeat (apply elem_of_cons in Hk as [->|Hk]); [done..|].
  by apply elem_of_nil in Hk.
Qed.

Section Offsets.

Variables (add_unknown : bool) (gazetteer : Gazetteer) (voc : gset string)
  (unk : string) (tagged : list token).

#[local] Abbreviation fold_at :=
  (window_fold add_unknown gazetteer voc unk tagged).

(** A feature of offset [rel] is written at index [position + rel]
    only. *)
Lemma window_fold_kind_other kind position indices rel :
  ∀ sample : Sample,
  kind ∈ ["TERM"; "POS"; "LEMMA"; "GAZ"] →
  position + rel ∉ indices →
  fold_at position sample indices !! (kind +:+ Py.fmt_signed rel)
  = sample !! (kind +:+ Py.fmt_signed rel).
Proof.
  induction indices as [|i indices IH]; intros sample Hk Hnot; [done|].
  apply not_elem_of_cons in Hnot as [Hne Hnot].
  rewrite window_fold_cons, IH by done. unfold sample_step.
  destruct (tagged !! Z.to_nat i); [|done].
  apply token_features_other; intros Heq;
    apply feature_name_inj in Heq as [_ ?];
    try lia; try done; set_solver.
Qed.

Lemma token_features_own (sample : Sample) rel t :
  let r := resolve add_unknown voc unk in
  let s := token_features add_unknown gazetteer voc unk sample rel t in
  s !! ("TERM" +:+ Py.fmt_signed rel) = Some (r (tok0 t))
  ∧ s !! ("POS" +:+ Py.fmt_signed rel) = Some (r (tok1 t))
  ∧ s !! ("LEMMA" +:+ Py.fmt_signed rel) = Some (r (tok2 t)).
Proof.
  unfold token_features. rewrite !add_gazetteer_other by done.
  rewrite !lookup_insert. repeat split; repeat case_decide; done.
Qed.

Lemma window_fold_own position indices rel t (sample : Sample) :
  NoDup indices → position + rel ∈ indices →
  tagged !! Z.to_nat (position + rel) = Some t →
  let r := resolve add_unknown voc unk in
  let s := fold_at position sample indices in
  s !! ("TERM" +:+ Py.fmt_signed rel) = Some (r (tok0 t))
  ∧ s !! ("POS" +:+ Py.fmt_signed rel) = Some (r (tok1 t))
  ∧ s !! ("LEMMA" +:+ Py.fmt_signed rel) = Some (r (tok2 t)).
Proof.
  intros Hnd Hin Ht r s. subst s.
  apply list_elem_of_split in Hin as (l1 & l2 & ->).
  apply NoDup_app in Hnd as (_ & _ & Hnd).
  apply NoDup_cons in Hnd as [Hnot _].
  rewrite window_fold_app, window_fold_cons.
  rewrite !window_fold_kind_other by (done || set_solver).
  unfold sample_step. rewrite Ht.
  replace (position + rel - position) with rel by lia.
  apply token_features_own.
Qed.

End Offsets.


(** For a token inside the window of position [p], at offset [rel],
    the sample of a returning call holds [TERM<rel>], [POS<rel>] and
    [LEMMA<rel>]: the word, tag and lemma of that token as the
    vocabulary policy resolves them against the vocabulary the call
    started with. *)
Theorem window_features_at_offset lower sentence fes add_unknown gazetteer
    self self' tagged (p : nat) (rel : Z) t :
  process_sentence lower sentence fes add_unknown gazetteer self
  = (Ok tt, self') →
  sentence_to_tokens lower self sentence fes = Ok tagged →
  (p < length tagged)%nat →
  - window_width self ≤ rel ≤ window_width self →
  0 ≤ Z.of_nat p + rel →
  tagged !! Z.to_nat (Z.of_nat p + rel) = Some t →
  ∃ sample label,
    samples self' !! (length (samples self) + p)%nat = Some (sample, label)
    ∧ let r := resolve add_unknown (vocabulary self) (unk_feature self) in
      sample !! ("TERM" +:+ Py.fmt_signed rel) = Some (r (tok0 t))
      ∧ sample !! ("POS" +:+ Py.fmt_signed rel) = Some (r (tok1 t))
      ∧ sample !! ("LEMMA" +:+ Py.fmt_signed rel) = Some (r (tok2 t)).
Proof.
  intros Hrun Htag Hp Hrel Hpos Ht.
  apply process_sentence_cases in Hrun
    as [(tagged' & Htag' & _ & _ & ->)|(e & [=] & _)].
  rewrite Htag in Htag'. injection Htag' as <-.
  rewrite processed_sample by done. eexists _, _. split; [done|].
  unfold window_sample. apply window_fold_own; [apply window_NoDup| |done].
  apply elem_of_window. apply lookup_lt_Some in Ht. unfold Py.len. lia.
Qed.

Lemma window_features_at_offset_witness :
  let self := Demo.extractor 1 true in
  let run := process_sentence Demo.lower "Ada met Bob" [] false ∅ self in
  ∃ sample label,
    samples run.2 !! (length (samples self) + 1)%nat = Some (sample, label)
    ∧ let r := resolve false (vocabulary self) (unk_feature self) in
      sample !! ("TERM" +:+ Py.fmt_signed (-1)) = Some (r "Ada")
      ∧ sample !! ("POS" +:+ Py.fmt_signed (-1)) = Some (r "W")
      ∧ sample !! ("LEMMA" +:+ Py.fmt_signed (-1)) = Some (r "ada").
Proof.
  apply (window_features_at_offset Demo.lower "Ada met Bob" [] false ∅
           (Demo.extractor 1 true) _
           [Tag3 "Ada" "W" "ada"; Tag3 "met" "W" "met"; Tag3 "Bob" "W" "bob"]
           1 (-1) (Tag3 "Ada" "W" "ada")).
  - vm_compute. reflexivity.
  - vm_compute. reflexivity.
  - simpl. lia.
  - simpl. lia.
  - lia.
  - reflexivity.
Defined.

(** An offset outside the window, or one that falls off either end of
    the sentence, leaves no feature of any kind in the sample. *)
Theorem no_feature_outside_window lower sentence fes add_unknown gazetteer
    self self' tagged (p : nat) (rel : Z) kind :
  process_sentence lower sentence fes add_unknown gazetteer self
  = (Ok tt, self') →
  sentence_to_tokens lower self sentence fes = Ok tagged →
  (p < length tagged)%nat →
  kind ∈ ["TERM"; "POS"; "LEMMA"; "GAZ"] →
  rel < - window_width self ∨ window_width self < rel
  ∨ Z.of_nat p + rel < 0 ∨ Py.len tagged ≤ Z.of_nat p + rel →
  ∃ sample label,
    samples self' !! (length (samples self) + p)%nat = Some (sample, label)
    ∧ sample !! (kind +:+ Py.fmt_signed rel) = None.
Proof.
  intros Hrun Htag Hp Hkind Hout.
  apply process_sentence_cases in Hrun
    as [(tagged' & Htag' & _ & _ & ->)|(e & [=] & _)].
  rewrite Htag in Htag'. injection Htag' as <-.
  rewrite processed_sample by done. eexists _, _. split; [done|].
  unfold window_sample. rewrite window_fold_kind_other; [|done|].
  - apply lookup_singleton_ne. by apply unk_not_feature.
  - rewrite elem_of_window. lia.
Qed.

Lemma no_feature_outside_window_witness :
  let self := Demo.extractor 1 true in
  let run := process_sentence Demo.lower "Ada met Bob" [] true ∅ self in
  ∃ sample label,
    samples run.2 !! (length (samples self) + 0)%nat = Some (sample, label)
    ∧ sample !! ("LEMMA" +:+ Py.fmt_signed (-1)) = None.
Proof.
  apply (no_feature_outside_window Demo.lower "Ada met Bob" [] true ∅
           (Demo.extractor 1 true) _
           [Tag3 "Ada" "W" "ada"; Tag3 "met" "W" "met"; Tag3 "Bob" "W" "bob"]
           0 (-1) "LEMMA").
  - vm_compute. reflexivity.
  - vm_compute. reflexivity.
  - simpl. lia.
  - set_solver.
  - right. right. left. lia.
Defined.

(** ** Inference after training *)

Lemma window_fold_modes gazetteer voc voc' unk tagged position indices :
  ∀ sample : Sample,
  (∀ i t, i ∈ indices → tagged !! Z.to_nat i = Some t → token_values t ⊆ voc') →
  window_fold false gazetteer voc' unk tagged position sample indices
  = window_fold true gazetteer voc unk tagged position sample indices.
Proof.
  induction indices as [|i indices IH]; intros sample Hin; [done|].
  rewrite !window_fold_cons.
  rewrite IH by (intros; eapply Hin; [by right|done]).
  f_equal. unfold sample_step.
  destruct (tagged !! Z.to_nat i) as [t|] eqn:Ht; [|done].
  assert (token_values t ⊆ voc') as Hsub by (eapply Hin; [by left|done]).
  unfold token_features, resolve. cbn [orb].
  rewrite !bool_decide_eq_true_2; [done|..];
    apply Hsub; unfold token_values; set_solver.
Qed.

(** A sentence that went through a returning training call can be
    processed again in inference mode: the call returns and appends the
    very samples the training call appended, no value replaced by the
    sentinel; vocabulary and label set stay as training left them. *)
Theorem inference_after_training lower sentence fes gazetteer self self1 :
  process_sentence lower sentence fes true gazetteer self = (Ok tt, self1) →
  process_sentence lower sentence fes false gazetteer self1
  = (Ok tt,
     set_samples
       (samples self1 ++ drop (length (samples self)) (samples self1)) self1).
Proof.
  intros Hrun.
  apply process_sentence_cases in Hrun
    as [(tagged & Htag & Hw & _ & ->)|(e & [=] & _)].
  assert (process_sentence lower sentence fes false gazetteer
            (processed true gazetteer self tagged)
          = (Ok tt, processed false gazetteer
                      (processed true gazetteer self tagged) tagged)) as ->.
  { destruct Hw as [Hw| ->].
    - by apply process_sentence_run.
    - rewrite !processed_nil. by apply process_sentence_nil. }
  f_equal. unfold processed at 1. unfold set_samples, with_accumulators.
  cbn [language tagger window_width collapse_fes unk_feature samples
       vocabulary labels processed with_accumulators].
  rewrite drop_app_length. f_equal.
  - f_equal. unfold sentence_samples. apply list_fmap_ext.
    intros _ p Hp%list_elem_of_lookup_2. f_equal.
    unfold window_sample. apply window_fold_modes.
    intros i t Hi Ht. unfold learn. intros x Hx.
    apply elem_of_union. right. apply elem_of_union_list.
    exists (token_values t). split; [|done].
    apply list_elem_of_fmap. exists t. split; [done|].
    apply list_elem_of_join. exists (window_tokens tagged (window_width self) p).
    split.
    + unfold window_tokens. apply list_elem_of_omap. by exists i.
    + apply list_elem_of_fmap. by exists p.
  - set_solver.
Qed.

Lemma inference_after_training_witness :
  let self := Demo.extractor 1 true in
  let self1 := (process_sentence Demo.lower "Ada met Bob"
                  [("Who", Some "bob")] true {[ "Ada" := ["PERSON"] ]} self).2 in
  process_sentence Demo.lower "Ada met Bob" [("Who", Some "bob")] false
    {[ "Ada" := ["PERSON"] ]} self1
  = (Ok tt,
     set_samples
       (samples self1 ++ drop (length (samples self)) (samples self1)) self1).
Proof.
  apply (inference_after_training Demo.lower "Ada met Bob"
           [("Who", Some "bob")] {[ "Ada" := ["PERSON"] ]}
           (Demo.extractor 1 true)).
  vm_compute. reflexivity.
Defined.


(** ** The label set *)

(** A returning call adds to the label set exactly the labels of the
    samples it appended. *)
Theorem labels_after_call lower sentence fes add_unknown gazetteer self self' :
  process_sentence lower sentence fes add_unknown gazetteer self
  = (Ok tt, self') →
  labels self'
  = labels self
    ∪ list_to_set (snd <$> drop (length (samples self)) (samples self')).
Proof.
  intros Hrun.
  apply process_sentence_cases in Hrun
    as [(tagged & _ & _ & _ & ->)|(e & [=] & _)].
  unfold processed. cbn [labels samples with_accumulators].
  rewrite drop_app_length. unfold sentence_samples.
  rewrite <- list_fmap_compose. rewrite (comm_L (∪)). f_equal.
Qed.

Lemma labels_after_call_witness :
  let self := Demo.extractor 1 true in
  let run := process_sentence Demo.lower "Ada met Bob" [("Who", Some "bob")]
               true ∅ self in
  labels run.2
  = labels self
    ∪ list_to_set (snd <$> drop (length (samples self)) (samples run.2)).
Proof.
  apply (labels_after_call Demo.lower "Ada met Bob" [("Who", Some "bob")]
           true ∅ (Demo.extractor 1 true)).
  vm_compute. reflexivity.
Defined.

(** ** Invariants of the extractors a caller can build *)

Section Reachable.

Variable lower : string → string.
Variable TTPosTagger : string → Tagger.

Lemma processed_labels_cover add_unknown gazetteer self tagged :
  labels_cover self →
  labels_cover (processed add_unknown gazetteer self tagged).
Proof.
  unfold labels_cover, processed. cbn [labels samples with_accumulators].
  intros Hcover. apply Forall_app. split.
  - eapply Forall_impl; [exact Hcover|]. intros sl Hsl. set_solver.
  - unfold sentence_samples. apply Forall_fmap, Forall_forall.
    intros p Hp. cbn [snd]. apply elem_of_union. left.
    apply elem_of_list_to_set, list_elem_of_fmap. by exists p.
Qed.

Lemma process_sentence_labels_cover sentence fes add_unknown gazetteer self :
  labels_cover self →
  labels_cover (process_sentence lower sentence fes add_unknown gazetteer self).2.
Proof.
  intros Hcover.
  destruct (process_sentence lower sentence fes add_unknown gazetteer self)
    as [r self'] eqn:Hrun.
  apply process_sentence_cases in Hrun
    as [(tagged & _ & _ & _ & ->)|(e & _ & ->)]; [|done].
  by apply processed_labels_cover.
Qed.

Lemma process_sentence_config sentence fes add_unknown gazetteer self :
  let self' := (process_sentence lower sentence fes add_unknown gazetteer self).2 in
  language self' = language self ∧ tagger self' = tagger self
  ∧ window_width self' = window_width self
  ∧ collapse_fes self' = collapse_fes self
  ∧ unk_feature self' = unk_feature self.
Proof.
  destruct (process_sentence lower sentence fes add_unknown gazetteer self)
    as [r self'] eqn:Hrun.
  by apply process_sentence_cases in Hrun
    as [(tagged & _ & _ & _ & ->)|(e & _ & ->)].
Qed.

Lemma process_sentence_sentinels sentence fes add_unknown gazetteer self :
  Forall (λ sl : Sample * string, sl.1 !! "unk" = Some (unk_feature self))
    (samples self) →
  Forall (λ sl : Sample * string, sl.1 !! "unk" = Some (unk_feature self))
    (samples (process_sentence lower sentence fes add_unknown gazetteer self).2).
Proof.
  intros Hall.
  destruct (process_sentence lower sentence fes add_unknown gazetteer self)
    as [r self'] eqn:Hrun.
  apply process_sentence_cases in Hrun
    as [(tagged & _ & _ & _ & ->)|(e & _ & ->)]; [|done].
  unfold processed. cbn [samples with_accumulators].
  apply Forall_app. split; [done|].
  unfold sentence_samples. apply Forall_fmap, Forall_forall.
  intros p _. apply window_sample_unk.
Qed.

Lemma reachable_labels_cover self :
  reachable lower TTPosTagger self → labels_cover self.
Proof.
  induction 1 as [| |self sentence fes add_unknown gazetteer _ IH].
  - constructor.
  - constructor.
  - by apply process_sentence_labels_cover.
Qed.

Lemma reachable_tagger self :
  reachable lower TTPosTagger self →
  tagger self = TTPosTagger (language self).
Proof.
  induction 1 as [| |self sentence fes add_unknown gazetteer _ IH];
    [done..|].
  destruct (process_sentence_config sentence fes add_unknown gazetteer self)
    as (-> & -> & _). done.
Qed.

Lemma reachable_unk_feature self :
  reachable lower TTPosTagger self → unk_feature self = "UNK".
Proof.
  induction 1 as [| |self sentence fes add_unknown gazetteer _ IH];
    [done..|].
  destruct (process_sentence_config sentence fes add_unknown gazetteer self)
    as (_ & _ & _ & _ & ->). done.
Qed.

(** Whatever the calls since [__init__] were and however they ended:
    the tagger is the one of the language, the sentinel is ['UNK'],
    every accumulated label is in the label set, every accumulated
    sample has ['unk'] set to the sentinel, and there are no more labels
    than samples can account for (a label set without samples is
    empty). *)
Theorem reachable_invariants self :
  reachable lower TTPosTagger self →
  tagger self = TTPosTagger (language self)
  ∧ unk_feature self = "UNK"
  ∧ labels_cover self
  ∧ Forall (λ sl : Sample * string, sl.1 !! "unk" = Some "UNK") (samples self)
  ∧ ∀ label, label ∈ labels self → label ∈ (samples self).*2.
Proof.
  intros Hreach.
  split; [by apply reachable_tagger|].
  split; [by apply reachable_unk_feature|].
  split; [by apply reachable_labels_cover|].
  induction Hreach as [| |self sentence fes add_unknown gazetteer Hreach IH].
  - split; [constructor|]. intros label. cbn. set_solver.
  - split; [constructor|]. intros label. cbn. set_solver.
  - destruct IH as [IHs IHl]. split.
    + destruct (process_sentence_config sentence fes add_unknown gazetteer self)
        as (_ & _ & _ & _ & Hunk).
      rewrite <- (reachable_unk_feature self Hreach).
      by apply process_sentence_sentinels;
        rewrite (reachable_unk_feature self Hreach).
    + destruct (process_sentence lower sentence fes add_unknown gazetteer self)
        as [r self'] eqn:Hrun.
      apply process_sentence_cases in Hrun
        as [(tagged & _ & _ & _ & ->)|(e & _ & ->)]; [|done].
      unfold processed. cbn [labels samples with_accumulators snd].
      intros label [Hnew|Hold]%elem_of_union.
      * rewrite fmap_app. apply elem_of_app. right.
        unfold sentence_samples. rewrite <- list_fmap_compose.
        by apply elem_of_list_to_set in Hnew.
      * rewrite fmap_app. apply elem_of_app. left. by apply IHl.
Qed.

End Reachable.

Lemma reachable_invariants_witness :
  let self := (process_sentence Demo.lower "Ada met Bob" [("Who", Some "bob")]
                 true ∅ (Demo.extractor 1 true)).2 in
  tagger self = Demo.demo_tagger
  ∧ unk_feature self = "UNK"
  ∧ labels_cover self
  ∧ Forall (λ sl : Sample * string, sl.1 !! "unk" = Some "UNK") (samples self)
  ∧ ∀ label, label ∈ labels self → label ∈ (samples self).*2.
Proof.
  apply (reachable_invariants Demo.lower (λ _, Demo.demo_tagger)).
  apply reachable_process. apply reachable_init.
Defined.


(** ** The finalizer on accumulated samples *)

Lemma xrange_lookup_Some lo hi (k : nat) i :
  Py.xrange lo hi !! k = Some i → i = lo + Z.of_nat k.
Proof.
  unfold Py.xrange. rewrite list_lookup_fmap.
  intros Hi. apply fmap_Some in Hi as (j & Hj & ->).
  apply lookup_seq in Hj as [-> _]. done.
Qed.

Lemma label_index_missing (labels : gset string) label :
  label ∉ labels → label_index_of labels !! label = None.
Proof.
  intros Hnot. unfold label_index_of. apply not_elem_of_list_to_map_1.
  rewrite fst_zip by (rewrite xrange_length; unfold Py.len; lia).
  by rewrite elem_of_elements.
Qed.

Lemma label_index_position (labels : gset string) label i :
  label_index_of labels !! label = Some i →
  0 ≤ i < Z.of_nat (size labels)
  ∧ elements labels !! Z.to_nat i = Some label.
Proof.
  unfold label_index_of. intros Hi%elem_of_list_to_map_2.
  apply list_elem_of_lookup_1 in Hi as (k & Hk).
  apply lookup_zip_with_Some in Hk as (l & j & [= <- <-] & Hl & Hj).
  apply xrange_lookup_Some in Hj as ->.
  pose proof (lookup_lt_Some _ _ _ Hl) as Hlt.
  rewrite Z.add_0_l, Nat2Z.id. split; [|done].
  unfold size, set_size. simpl. lia.
Qed.

Section FinalizerMore.

Variable Matrix : Type.
Variable fit_transform : list Sample → Matrix.
Variable lower : string → string.
Variable TTPosTagger : string → Tagger.

Lemma label_loop_result (index : gmap string Z) (labels : list string) :
  ∀ acc res,
  for_result (λ acc label,
                match index !! label with
                | Some i => Ok (acc ++ [i])
                | None => Raise KeyError
                end) acc labels = Ok res →
  ∃ indices, res = acc ++ indices
    ∧ Forall2 (λ label i, index !! label = Some i) labels indices.
Proof.
  induction labels as [|label labels IH]; intros acc res Hrun.
  - injection Hrun as <-. exists []. by rewrite app_nil_r.
  - cbn [for_result] in Hrun.
    destruct (index !! label) as [i|] eqn:Hi; [|done].
    apply IH in Hrun as (indices & -> & Hall).
    exists (i :: indices). rewrite <- app_assoc. split; [done|].
    by constructor.
Qed.

Lemma label_loop_missing (index : gmap string Z) (labels : list string) :
  ∀ acc,
  Exists (λ label, index !! label = None) labels →
  for_result (λ acc label,
                match index !! label with
                | Some i => Ok (acc ++ [i])
                | None => Raise KeyError
                end) acc labels = Raise KeyError.
Proof.
  induction labels as [|label labels IH]; intros acc Hex.
  - by apply Exists_nil in Hex.
  - cbn [for_result]. destruct (index !! label) as [i|] eqn:Hi; [|done].
    apply Exists_cons in Hex as [Hnone|Hex]; [congruence|]. by apply IH.
Qed.

(** A sample whose label is not in the label set (a state only
    [__setstate__] can bring) makes the finalizer raise [KeyError]. *)
Theorem get_features_missing_label self :
  Exists (λ sl : Sample * string, sl.2 ∉ labels self) (samples self) →
  get_features Matrix fit_transform self = Raise KeyError.
Proof.
  intros Hex. unfold get_features.
  destruct (samples self) as [|sl smp] eqn:Hs; [by apply Exists_nil in Hex|].
  cbn [zip_star]. rewrite label_loop_missing; [done|].
  apply Exists_fmap. eapply Exists_impl; [exact Hex|].
  intros [s l] Hl. by apply label_index_missing.
Qed.

(** What a returning finalizer hands back: the matrix of the feature
    dictionaries in order, and one index per sample, each the position
    of the sample's label in the enumeration of the label set; so two
    samples get the same index exactly when they have the same
    label. *)
Theorem get_features_indices self matrix indices :
  get_features Matrix fit_transform self = Ok (matrix, indices) →
  matrix = fit_transform (samples self).*1
  ∧ length indices = length (samples self)
  ∧ (∀ k i, indices !! k = Some i →
       ∃ sample label, samples self !! k = Some (sample, label)
         ∧ 0 ≤ i < Z.of_nat (size (labels self))
         ∧ elements (labels self) !! Z.to_nat i = Some label)
  ∧ (∀ k k' i i' sl sl',
       indices !! k = Some i → indices !! k' = Some i' →
       samples self !! k = Some sl → samples self !! k' = Some sl' →
       i = i' ↔ sl.2 = sl'.2).
Proof.
  intros Hrun. unfold get_features in Hrun.
  destruct (samples self) as [|sl0 smp] eqn:Hs; [done|].
  cbn [zip_star] in Hrun.
  destruct (for_result _ [] _) as [res|] eqn:Hloop; [|done].
  injection Hrun as <- <-.
  apply label_loop_result in Hloop as (is' & -> & Hall).
  cbn [app] in *.
  pose proof (Forall2_length _ _ _ Hall) as Hlen.
  rewrite length_fmap in Hlen.
  assert (∀ k i, is' !! k = Some i →
            ∃ sample label, (sl0 :: smp) !! k = Some (sample, label)
              ∧ label_index_of (labels self) !! label = Some i) as Hat.
  { intros k i Hi.
    destruct (Forall2_lookup_r _ _ _ _ _ Hall Hi) as (label & Hl & Hidx).
    rewrite list_lookup_fmap in Hl.
    apply fmap_Some in Hl as ([sample label'] & Hsl & ->).
    by exists sample, label'. }
  split; [done|]. split; [done|]. split.
  - intros k i Hi. destruct (Hat k i Hi) as (sample & label & Hsl & Hidx).
    exists sample, label. split; [done|]. by apply label_index_position.
  - intros k k' i i' sl sl' Hi Hi' Hsl Hsl'.
    destruct (Hat k i Hi) as (s1 & l1 & Hsl1 & Hidx1).
    destruct (Hat k' i' Hi') as (s2 & l2 & Hsl2 & Hidx2).
    rewrite Hsl in Hsl1. rewrite Hsl' in Hsl2.
    injection Hsl1 as ->. injection Hsl2 as ->. cbn [snd].
    split.
    + intros <-. apply label_index_position in Hidx1 as [_ H1].
      apply label_index_position in Hidx2 as [_ H2]. congruence.
    + intros <-. congruence.
Qed.

(** On an extractor built by [__init__], [start] and
    [process_sentence] calls the finalizer returns as soon as there is
    one sample: it cannot meet a label that is missing from the set. *)
Theorem get_features_reachable self :
  reachable lower TTPosTagger self →
  samples self ≠ [] →
  ∃ indices,
    length indices = length (samples self)
    ∧ get_features Matrix fit_transform self
      = Ok (fit_transform (samples self).*1, indices).
Proof.
  intros Hreach Hne. apply get_features_returns; [done|].
  by eapply reachable_labels_cover.
Qed.

End FinalizerMore.

Lemma get_features_missing_label_witness :
  let self :=
    setstate (λ _, Demo.demo_tagger)
      ("en", "UNK", 2, [({[ "unk" := "UNK" ]}, "Who")], ∅, {[ "O" ]}, true) in
  get_features (list Sample) id self = Raise KeyError.
Proof.
  apply (get_features_missing_label (list Sample) id).
  apply Exists_cons_hd. by vm_compute.
Defined.

Lemma get_features_indices_witness :
  let self := (process_sentence Demo.lower "Ada met Bob" [("Who", Some "bob")]
                 true ∅ (Demo.extractor 1 true)).2 in
  (samples self).*1 = id (samples self).*1
  ∧ length [0; 1; 1] = length (samples self)
  ∧ (∀ k i, [0; 1; 1] !! k = Some i →
       ∃ sample label, samples self !! k = Some (sample, label)
         ∧ 0 ≤ i < Z.of_nat (size (labels self))
         ∧ elements (labels self) !! Z.to_nat i = Some label)
  ∧ (∀ k k' i i' sl sl',
       [0; 1; 1] !! k = Some i → [0; 1; 1] !! k' = Some i' →
       samples self !! k = Some sl → samples self !! k' = Some sl' →
       i = i' ↔ sl.2 = sl'.2).
Proof.
  apply (get_features_indices (list Sample) id).
  vm_compute. reflexivity.
Defined.

Lemma get_features_reachable_witness :
  let self := (process_sentence Demo.lower "Ada met Bob" [("Who", Some "bob")]
                 true ∅ (Demo.extractor 1 true)).2 in
  ∃ indices,
    length indices = length (samples self)
    ∧ get_features (list Sample) id self = Ok (id (samples self).*1, indices).
Proof.
  apply (get_features_reachable (list Sample) id Demo.lower
           (λ _, Demo.demo_tagger)).
  - apply reachable_process. apply reachable_init.
  - by vm_compute.
Defined.


(** ** Pickling, both ways *)

Lemma setstate_getstate_built TTPosTagger self :
  tagger self = TTPosTagger (language self) →
  setstate TTPosTagger (getstate self) = self.
Proof. destruct self. cbn. by intros ->. Qed.

(** Restoring a saved extractor gives back the extractor itself,
    tagger included, exactly when its tagger is the one [__init__]
    builds for its language. *)
Theorem restore_exact_iff TTPosTagger self :
  setstate TTPosTagger (getstate self) = self
  ↔ tagger self = TTPosTagger (language self).
Proof.
  split; [|apply setstate_getstate_built].
  intros Heq. rewrite <- Heq at 1. by destruct self.
Qed.

(** Every extractor built by [__init__], [start] and [process_sentence]
    calls survives saving and restoring unchanged, so the restored
    object goes on exactly as the saved one would. *)
Theorem restore_reachable lower TTPosTagger self :
  reachable lower TTPosTagger self →
  setstate TTPosTagger (getstate self) = self.
Proof.
  intros Hreach. apply setstate_getstate_built.
  by eapply reachable_tagger.
Qed.

Lemma restore_reachable_witness :
  let self := (process_sentence Demo.lower "Ada met Bob" [("Who", Some "bob")]
                 true ∅ (Demo.extractor 1 false)).2 in
  setstate (λ _, Demo.demo_tagger) (getstate self) = self.
Proof.
  apply (restore_reachable Demo.lower (λ _, Demo.demo_tagger)).
  apply reachable_process. apply reachable_init.
Defined.

(** ** When the scan does find the chunk *)

Section ScanComplete.

Variable lower : string → string.

Lemma scan_from_skip fe_tokens f0 rest' pre : ∀ rest i,
  fe_tokens = f0 :: rest' →
  Forall (λ t, lower f0 ≠ lower (tok0 t)) pre →
  scan_from lower fe_tokens (pre ++ rest) i 0
  = scan_from lower fe_tokens rest (i + Py.len pre) 0.
Proof.
  induction pre as [|t pre IH]; intros rest i Hfe Hpre.
  - cbn. f_equal. unfold Py.len. simpl. lia.
  - apply Forall_cons in Hpre as [Ht Hpre]. cbn [app scan_from].
    rewrite (getitem_lookup fe_tokens 0 f0) by (by subst).
    cbn [mbind result_bind]. rewrite decide_False by done.
    rewrite IH by done. f_equal. unfold Py.len. simpl. lia.
Qed.

Lemma scan_from_match fe_tokens post span : ∀ i (j : nat),
  span ≠ [] →
  matches lower (drop j fe_tokens) span →
  scan_from lower fe_tokens (span ++ post) i (Z.of_nat j)
  = Ok (true, i + Py.len span - 1).
Proof.
  induction span as [|t span IH]; intros i j Hne Hm; [done|].
  destruct (drop j fe_tokens) as [|fj more] eqn:Hdrop;
    [by apply Forall2_nil_cons_inv in Hm|].
  apply Forall2_cons in Hm as [Hfj Hm].
  assert (fe_tokens !! j = Some fj) as Hj.
  { rewrite <- (Nat.add_0_r j), <- lookup_drop. by rewrite Hdrop. }
  assert (drop (S j) fe_tokens = more) as Hmore.
  { replace (S j) with (j + 1)%nat by lia.
    by rewrite <- drop_drop, Hdrop. }
  pose proof (lookup_lt_Some _ _ _ Hj) as Hlt.
  cbn [app scan_from].
  rewrite (getitem_lookup fe_tokens (Z.of_nat j) fj)
    by (lia || by rewrite Nat2Z.id).
  cbn [mbind result_bind]. rewrite decide_True by done.
  destruct (decide (Z.of_nat j + 1 = Py.len fe_tokens)) as [Hlast|Hnot].
  - assert (more = []) as ->.
    { rewrite <- Hmore. apply drop_ge. unfold Py.len in Hlast. lia. }
    apply Forall2_nil_inv_l in Hm as ->. f_equal. f_equal.
    unfold Py.len. simpl. lia.
  - replace (Z.of_nat j + 1) with (Z.of_nat (S j)) by lia.
    rewrite IH.
    + f_equal. f_equal. unfold Py.len. simpl. lia.
    + intros ->. apply Forall2_nil_inv_r in Hm. subst more.
      apply (f_equal length) in Hmore. rewrite length_drop in Hmore.
      unfold Py.len in Hnot. simpl in Hmore. lia.
    + by rewrite Hmore.
Qed.

(** If no token before an occurrence of the chunk equals the chunk's
    first token (ignoring case), the scan finds that occurrence: it
    stops on its last token. *)
Theorem scan_finds_unshadowed_occurrence fe_tokens f0 rest' pre span post :
  fe_tokens = f0 :: rest' →
  matches lower fe_tokens span →
  Forall (λ t, lower f0 ≠ lower (tok0 t)) pre →
  scan lower fe_tokens (pre ++ span ++ post)
  = Ok (true, Py.len pre + Py.len fe_tokens - 1).
Proof.
  intros Hfe Hm Hpre. unfold scan.
  rewrite (scan_from_skip fe_tokens f0 rest') by done.
  change 0 with (Z.of_nat 0) at 2.
  rewrite scan_from_match.
  - f_equal. f_equal. apply matches_length in Hm. unfold Py.len. lia.
  - intros ->. apply Forall2_nil_inv_r in Hm. by subst.
  - done.
Qed.

(** If no token at all equals the chunk's first token, the scan runs to
    the end and reports the chunk as not found. *)
Theorem scan_without_first_token fe_tokens f0 rest' tagged :
  fe_tokens = f0 :: rest' →
  Forall (λ t, lower f0 ≠ lower (tok0 t)) tagged →
  scan lower fe_tokens tagged = Ok (false, Py.len tagged).
Proof.
  intros Hfe Hall. unfold scan.
  rewrite <- (app_nil_r tagged) at 1.
  by rewrite (scan_from_skip fe_tokens f0 rest').
Qed.

End ScanComplete.

Lemma scan_finds_unshadowed_occurrence_witness :
  scan Demo.lower ["new"; "york"]
    ([Tag3 "Old" "W" "old"] ++ [Tag3 "New" "W" "new"; Tag3 "York" "W" "york"]
       ++ [Tag3 "city" "W" "city"])
  = Ok (true, Py.len [Tag3 "Old" "W" "old"] + Py.len ["new"; "york"] - 1).
Proof.
  apply (scan_finds_unshadowed_occurrence Demo.lower ["new"; "york"]
           "new" ["york"]).
  - reflexivity.
  - repeat constructor.
  - repeat constructor. by vm_compute.
Defined.

Lemma scan_without_first_token_witness :
  scan Demo.lower ["new"; "york"]
    [Tag3 "Old" "W" "old"; Tag3 "York" "W" "york"]
  = Ok (false, Py.len [Tag3 "Old" "W" "old"; Tag3 "York" "W" "york"]).
Proof.
  apply (scan_without_first_token Demo.lower ["new"; "york"] "new" ["york"]).
  - reflexivity.
  - repeat constructor; by vm_compute.
Defined.


(** ** The aligner over a whole FE map *)

Section AlignAll.

Variable lower : string → string.

Lemma getitem_Ok {A} (l : list A) i x :
  Py.getitem l i = Ok x →
  0 ≤ Py.norm_index l i < Py.len l
  ∧ l !! Z.to_nat (Py.norm_index l i) = Some x.
Proof.
  unfold Py.getitem. destruct (decide _) as [Hr|]; [|done].
  destruct (l !! _) as [y|] eqn:Hy; [|done]. by intros [= ->].
Qed.

Lemma setitem_Ok {A} (l : list A) i x l' :
  Py.setitem l i x = Ok l' →
  l' = <[Z.to_nat (Py.norm_index l i) := x]> l.
Proof.
  unfold Py.setitem. destruct (decide _); [|done]. by intros [= ->].
Qed.

(** What one step of the split loop does when it returns. *)
Lemma split_step_Ok fe tagged i tagged' :
  split_step fe tagged i = Ok tagged' →
  ∃ (n : nat) w p l,
    tagged !! n = Some (Tag3 w p l)
    ∧ tagged' = <[n := Tag4 w p "ENT" fe]> tagged.
Proof.
  unfold split_step. destruct (Py.getitem tagged i) as [t|] eqn:Hget; [|done].
  apply getitem_Ok in Hget as [_ Ht]. cbn [mbind result_bind].
  destruct t as [w p l|]; [|done]. cbn [unpack3 mbind result_bind].
  intros ->%setitem_Ok. by eexists _, w, p, l.
Qed.

Lemma split_loop_Ok fe indices : ∀ tagged tagged',
  for_result (split_step fe) tagged indices = Ok tagged' →
  (λ t, (tok0 t, tok1 t)) <$> tagged' = (λ t, (tok0 t, tok1 t)) <$> tagged
  ∧ ∀ t, t ∈ tagged' → t ∈ tagged ∨ tok3 t = Ok fe.
Proof.
  induction indices as [|i indices IH]; intros tagged tagged' Hrun.
  - injection Hrun as <-. auto.
  - cbn [for_result] in Hrun.
    destruct (split_step fe tagged i) as [tagged1|] eqn:Hstep; [|done].
    apply split_step_Ok in Hstep as (n & w & p & l & Hn & ->).
    apply IH in Hrun as [Hwords Hin]. split.
    + rewrite Hwords, list_fmap_insert. apply list_insert_id.
      by rewrite list_lookup_fmap, Hn.
    + intros t [Ht|Ht]%Hin; [|by right].
      apply list_elem_of_lookup_1 in Ht as (k & Hk).
      destruct (decide (k = n)) as [->|Hne].
      * rewrite list_lookup_insert_eq in Hk by (by eapply lookup_lt_Some).
        injection Hk as <-. by right.
      * rewrite list_lookup_insert_ne in Hk by done.
        left. by eapply list_elem_of_lookup_2.
Qed.

(** One entry in collapse mode: always a result, never longer. *)
Lemma align_fe_collapse self tagged entry :
  collapse_fes self = true →
  ∃ tagged', align_fe lower self tagged entry = Ok tagged'
    ∧ (length tagged' ≤ length tagged)%nat.
Proof.
  intros Hcollapse. destruct entry as [fe [chunk|]]; [|by exists tagged].
  destruct (decide (tokenize (tagger self) chunk = [])) as [Hnil|Hne].
  { exists tagged. by rewrite align_fe_no_tokens. }
  destruct (scan_returns lower _ tagged Hne) as ([] & i & Hscan).
  - destruct (scan_found lower _ _ _ Hne Hscan)
      as (pre & span & post & Htag & Hm & Hlen).
    pose proof (matches_length _ _ _ Hm) as Hspan.
    destruct (align_fe_found lower self tagged fe chunk i pre span post)
      as (pos & _ & _ & ->); [done..|].
    rewrite Hcollapse. eexists. split; [done|].
    rewrite Htag, !length_app. simpl.
    destruct (tokenize (tagger self) chunk); [done|]. simpl in Hspan. lia.
  - exists tagged. split; [|done]. by eapply align_fe_not_found.
Qed.

(** One entry, any mode, when it returns: where its tokens come from. *)
Lemma align_fe_tokens self tagged fe chunk tagged' :
  align_fe lower self tagged (fe, chunk) = Ok tagged' →
  ∀ t, t ∈ tagged' → t ∈ tagged ∨ (tok3 t = Ok fe ∧ is_Some chunk).
Proof.
  intros Hrun. destruct chunk as [chunk|];
    [|injection Hrun as <-; by left].
  destruct (decide (tokenize (tagger self) chunk = [])) as [Hnil|Hne].
  { rewrite align_fe_no_tokens in Hrun by done. injection Hrun as <-. by left. }
  destruct (scan_returns lower _ tagged Hne) as ([] & i & Hscan).
  - destruct (scan_found lower _ _ _ Hne Hscan)
      as (pre & span & post & Htag & Hm & Hlen).
    pose proof (matches_length _ _ _ Hm) as Hspan.
    destruct (align_fe_found lower self tagged fe chunk i pre span post)
      as (pos & _ & _ & Halign); [done..|].
    rewrite Halign in Hrun. destruct (collapse_fes self).
    + injection Hrun as <-. intros t Ht.
      apply elem_of_app in Ht as [Ht|Ht].
      { left. rewrite Htag. apply elem_of_app. by left. }
      apply elem_of_cons in Ht as [->|Ht].
      { right. split; [done|by eexists]. }
      left. rewrite Htag, !elem_of_app. auto.
    + apply split_loop_Ok in Hrun as [_ Hin].
      intros t [?|?]%Hin; [by left|right]. split; [done|by eexists].
  - rewrite (align_fe_not_found _ _ _ _ _ _ Hscan) in Hrun.
    injection Hrun as <-. by left.
Qed.

Lemma align_fe_split_words self tagged entry tagged' :
  collapse_fes self = false →
  align_fe lower self tagged entry = Ok tagged' →
  (λ t, (tok0 t, tok1 t)) <$> tagged' = (λ t, (tok0 t, tok1 t)) <$> tagged.
Proof.
  intros Hsplit Hrun. destruct entry as [fe [chunk|]];
    [|by injection Hrun as <-].
  destruct (decide (tokenize (tagger self) chunk = [])) as [Hnil|Hne].
  { rewrite align_fe_no_tokens in Hrun by done. by injection Hrun as <-. }
  destruct (scan_returns lower _ tagged Hne) as ([] & i & Hscan).
  - destruct (scan_found lower _ _ _ Hne Hscan)
      as (pre & span & post & Htag & Hm & Hlen).
    pose proof (matches_length _ _ _ Hm) as Hspan.
    destruct (align_fe_found lower self tagged fe chunk i pre span post)
      as (pos & _ & _ & Halign); [done..|].
    rewrite Halign, Hsplit in Hrun. by apply split_loop_Ok in Hrun as [? _].
  - rewrite (align_fe_not_found _ _ _ _ _ _ Hscan) in Hrun.
    by injection Hrun as <-.
Qed.

(** In collapse mode the aligner never raises, whatever the sentence
    and the FE map, and it returns at most as many tokens as the tagger
    gave. *)
Theorem collapse_mode_always_returns self sentence fes :
  collapse_fes self = true →
  ∃ tokens,
    sentence_to_tokens lower self sentence fes = Ok tokens
    ∧ (length tokens ≤ length (tag_one (tagger self) sentence))%nat.
Proof.
  intros Hcollapse. unfold sentence_to_tokens.
  rewrite <- (length_fmap of_triple (tag_one (tagger self) sentence)).
  generalize (of_triple <$> tag_one (tagger self) sentence). intros tagged.
  revert tagged. induction fes as [|entry fes IH]; intros tagged.
  - by exists tagged.
  - destruct (align_fe_collapse self tagged entry Hcollapse)
      as (tagged1 & Hstep & Hlen1).
    destruct (IH tagged1) as (tokens & Hrun & Hlen).
    exists tokens. cbn [for_result]. rewrite Hstep. split; [done|lia].
Qed.

(** In split mode a returning aligner keeps every token of the tagger
    in place with its word and its tag; only lemmas and labels
    change. *)
Theorem split_mode_keeps_words_and_tags self sentence fes tokens :
  collapse_fes self = false →
  sentence_to_tokens lower self sentence fes = Ok tokens →
  (λ t, (tok0 t, tok1 t)) <$> tokens
  = (λ x : string * string * string, (x.1.1, x.1.2))
      <$> tag_one (tagger self) sentence.
Proof.
  intros Hsplit. unfold sentence_to_tokens.
  assert ((λ x : string * string * string, (x.1.1, x.1.2))
            <$> tag_one (tagger self) sentence
          = (λ t, (tok0 t, tok1 t))
              <$> (of_triple <$> tag_one (tagger self) sentence)) as ->.
  { rewrite <- list_fmap_compose. apply list_fmap_ext.
    by intros _ [[w p] l] _. }
  generalize (of_triple <$> tag_one (tagger self) sentence). intros tagged.
  revert tagged. induction fes as [|entry fes IH]; intros tagged Hrun.
  - by injection Hrun as <-.
  - cbn [for_result] in Hrun.
    destruct (align_fe lower self tagged entry) as [tagged1|] eqn:Hstep;
      [|done].
    rewrite (IH _ Hrun). by eapply align_fe_split_words.
Qed.

(** The aligner invents no label: a token of the result that carries a
    frame element carries the name of an entry of the FE map whose
    chunk is not [None]. *)
Theorem labels_come_from_fes self sentence fes tokens t fe :
  sentence_to_tokens lower self sentence fes = Ok tokens →
  t ∈ tokens → tok3 t = Ok fe →
  ∃ chunk, (fe, Some chunk) ∈ fes.
Proof.
  unfold sentence_to_tokens.
  assert (∀ t, t ∈ of_triple <$> tag_one (tagger self) sentence →
            tok3 t = Raise IndexError) as Hraw.
  { intros t' (x & -> & _)%list_elem_of_fmap. by destruct x as [[w p] l]. }
  revert Hraw.
  generalize (of_triple <$> tag_one (tagger self) sentence). intros tagged.
  revert tagged.
  cut (∀ seen tagged,
         (∀ t', t' ∈ tagged → tok3 t' = Raise IndexError
            ∨ ∃ fe' chunk, tok3 t' = Ok fe' ∧ (fe', Some chunk) ∈ seen) →
         for_result (align_fe lower self) tagged fes = Ok tokens →
         t ∈ tokens → tok3 t = Ok fe →
         ∃ chunk, (fe, Some chunk) ∈ seen ++ fes).
  { intros Hcut tagged Hraw. apply (Hcut [] tagged). intros t' Ht'.
    left. by apply Hraw. }
  induction fes as [|[fe1 chunk1] fes IH]; intros seen tagged Hinv Hrun Ht Hfe.
  - injection Hrun as <-. rewrite app_nil_r.
    destruct (Hinv t Ht) as [Hnone|(fe' & chunk & Hfe' & Hin)]; [congruence|].
    rewrite Hfe in Hfe'. injection Hfe' as <-. eauto.
  - cbn [for_result] in Hrun.
    destruct (align_fe lower self tagged (fe1, chunk1)) as [tagged1|] eqn:Hstep;
      [|done].
    replace (seen ++ (fe1, chunk1) :: fes)
      with ((seen ++ [(fe1, chunk1)]) ++ fes) by (by rewrite <- app_assoc).
    apply (IH (seen ++ [(fe1, chunk1)]) tagged1); [|done..].
    intros t' Ht'.
    destruct (align_fe_tokens _ _ _ _ _ Hstep t' Ht')
      as [Hold|[Hnew [chunk ->]]].
    + destruct (Hinv t' Hold) as [?|(fe' & chunk & ? & ?)]; [by left|right].
      exists fe', chunk. split; [done|]. apply elem_of_app. by left.
    + right. exists fe1, chunk. split; [done|]. apply elem_of_app. right.
      by apply list_elem_of_singleton.
Qed.

End AlignAll.

Lemma collapse_mode_always_returns_witness :
  ∃ tokens,
    sentence_to_tokens Demo.lower (Demo.extractor 2 true)
      "John Smith killed the mayor"
      [("Office", Some "mayor"); ("Victim", Some "the mayor");
       ("Nobody", Some "smith killed john")] = Ok tokens
    ∧ (length tokens
       ≤ length (tag_one (tagger (Demo.extractor 2 true))
                   "John Smith killed the mayor"))%nat.
Proof.
  apply (collapse_mode_always_returns Demo.lower (Demo.extractor 2 true)).
  reflexivity.
Defined.

Lemma split_mode_keeps_words_and_tags_witness :
  (λ t, (tok0 t, tok1 t))
    <$> [Tag4 "John" "W" "ENT" "Perpetrator";
         Tag4 "Smith" "W" "ENT" "Perpetrator"; Tag3 "killed" "W" "killed";
         Tag4 "the" "W" "ENT" "Victim"; Tag4 "mayor" "W" "ENT" "Victim"]
  = (λ x : string * string * string, (x.1.1, x.1.2))
      <$> tag_one (tagger (Demo.extractor 1 false))
            "John Smith killed the mayor".
Proof.
  apply (split_mode_keeps_words_and_tags Demo.lower (Demo.extractor 1 false)
           "John Smith killed the mayor"
           [("Victim", Some "the mayor"); ("Perpetrator", Some "John Smith")]).
  - reflexivity.
  - by vm_compute.
Defined.

Lemma labels_come_from_fes_witness :
  ∃ chunk,
    ("Victim", Some chunk)
      ∈ [("Victim", Some "the mayor"); ("Perpetrator", Some "John Smith")].
Proof.
  apply (labels_come_from_fes Demo.lower (Demo.extractor 1 true)
           "John Smith killed the mayor"
           [("Victim", Some "the mayor"); ("Perpetrator", Some "John Smith")]
           [Tag4 "John Smith" "ENT" "John Smith" "Perpetrator";
            Tag3 "killed" "W" "killed";
            Tag4 "the mayor" "ENT" "the mayor" "Victim"]
           (Tag4 "the mayor" "ENT" "the mayor" "Victim") "Victim").
  - by vm_compute.
  - set_solver.
  - reflexivity.
Defined.


(** * Names *)

(** ** Python strings *)

Lemma pystr_drop_length n s :
  String.length (PyStr.drop n s) = (String.length s - n)%nat.
Proof.
  revert s. induction n as [|n IH]; intros [|c s]; simpl; try done; try lia.
Qed.

Lemma pystr_startswith_length s prefix :
  PyStr.startswith s prefix = true →
  (String.length prefix ≤ String.length s)%nat.
Proof.
  unfold PyStr.startswith. revert s.
  induction prefix as [|p prefix IH]; intros [|c s]; simpl; try done; try lia.
  destruct (Ascii.ascii_dec p c); [|done]. intros H%IH. lia.
Qed.

Lemma pystr_startswith_app s prefix :
  PyStr.startswith s prefix = true →
  s = prefix +:+ PyStr.drop (String.length prefix) s.
Proof.
  unfold PyStr.startswith. revert s.
  induction prefix as [|p prefix IH]; intros [|c s]; simpl; try done.
  destruct (Ascii.ascii_dec p c) as [->|]; [|done]. intros H%IH.
  change (String c s
          = String c (prefix +:+ PyStr.drop (String.length prefix) s)).
  by f_equal.
Qed.

Section StripFacts.

Variable is_space : Ascii.ascii → bool.

#[local] Abbreviation lstrip := (PyStr.lstrip is_space).
#[local] Abbreviation rstrip := (PyStr.rstrip is_space).
#[local] Abbreviation strip := (PyStr.strip is_space).

Lemma lstrip_length s : (String.length (lstrip s) ≤ String.length s)%nat.
Proof.
  induction s as [|c s IH]; simpl; [done|].
  destruct (is_space c); simpl; lia.
Qed.

Lemma rstrip_length s : (String.length (rstrip s) ≤ String.length s)%nat.
Proof.
  induction s as [|c s IH]; simpl; [done|].
  destruct (rstrip s); [destruct (is_space c)|]; simpl in *; lia.
Qed.

Lemma strip_length s : (String.length (strip s) ≤ String.length s)%nat.
Proof.
  unfold PyStr.strip. pose proof (rstrip_length (lstrip s)).
  pose proof (lstrip_length s). lia.
Qed.

Lemma lstrip_idemp s : lstrip (lstrip s) = lstrip s.
Proof.
  induction s as [|c s IH]; simpl; [done|].
  destruct (is_space c) eqn:Hc; [done|]. simpl. by rewrite Hc.
Qed.

Lemma rstrip_idemp s : rstrip (rstrip s) = rstrip s.
Proof.
  induction s as [|c s IH]; simpl; [done|].
  destruct (rstrip s) as [|c' r] eqn:Hr.
  - destruct (is_space c) eqn:Hc; [done|]. simpl. by rewrite Hc.
  - cbn [PyStr.rstrip]. cbn [PyStr.rstrip] in IH.
    destruct (rstrip r) eqn:Hrr; [|by rewrite IH].
    destruct (is_space c'); [done|]. by rewrite IH.
Qed.

Lemma lstrip_rstrip s : lstrip s = s → lstrip (rstrip s) = rstrip s.
Proof.
  destruct s as [|c s]; [done|]. simpl.
  destruct (is_space c) eqn:Hc.
  - intros Heq. pose proof (lstrip_length s) as Hlen.
    rewrite Heq in Hlen. simpl in Hlen. lia.
  - intros _. destruct (rstrip s); simpl; by rewrite Hc.
Qed.

(** A stripped string has no white space left at either end. *)
Lemma strip_stripped s : lstrip (strip s) = strip s ∧ rstrip (strip s) = strip s.
Proof.
  unfold PyStr.strip. split.
  - apply lstrip_rstrip, lstrip_idemp.
  - apply rstrip_idemp.
Qed.

Lemma strip_idemp s : strip (strip s) = strip s.
Proof.
  destruct (strip_stripped s) as [Hl Hr]. unfold PyStr.strip at 1.
  by rewrite Hl, Hr.
Qed.

End StripFacts.

Lemma split_comma_app before after :
  (∀ a b, before ≠ a +:+ "," +:+ b) →
  PyStr.split_comma (before +:+ "," +:+ after) = Some (before, after).
Proof.
  induction before as [|c before IH]; intros Hno.
  - reflexivity.
  - simpl. destruct (decide (c = PyStr.char_of ",")) as [->|Hc].
    + destruct (Hno "" before). done.
    + rewrite IH; [case_decide as H; [destruct (Hc H)|done]|].
      intros a b ->. by destruct (Hno (String c a) b).
Qed.

Lemma split_comma_None s :
  PyStr.split_comma s = None → ∀ a b, s ≠ a +:+ "," +:+ b.
Proof.
  induction s as [|c s IH]; intros Hs a b.
  - by destruct a.
  - cbn [PyStr.split_comma] in Hs.
    destruct (decide (c = PyStr.char_of ",")) as [->|Hc]; [done|].
    destruct (PyStr.split_comma s) as [[??]|] eqn:Hsplit; [done|].
    destruct a as [|c' a]; simpl; [by intros [= -> _]|].
    intros [= -> ->]. by eapply IH.
Qed.


(** ** [strip_honorifics] *)

Lemma sum_lengths_app (a b : list string) :
  sum_list (String.length <$> a ++ b)
  = (sum_list (String.length <$> a) + sum_list (String.length <$> b))%nat.
Proof.
  induction a as [|x a IH]; [done|].
  change (sum_list (String.length <$> (x :: a) ++ b))
    with (String.length x + sum_list (String.length <$> a ++ b))%nat.
  change (sum_list (String.length <$> x :: a))
    with (String.length x + sum_list (String.length <$> a))%nat.
  rewrite IH. lia.
Qed.

Section Honorifics.

Variable is_space : Ascii.ascii → bool.

#[local] Abbreviation step := (honorific_step is_space).

Lemma honorific_step_miss name honorifics changed prefix :
  PyStr.startswith name prefix = false →
  step (name, honorifics, changed) prefix = Ok (name, honorifics, changed).
Proof. intros H. unfold honorific_step. by rewrite H. Qed.

(** A step that strips: the rest of the name is not empty, and what
    comes back is no longer than that rest. *)
Lemma honorific_step_hit name honorifics changed prefix r :
  PyStr.startswith name prefix = true →
  step (name, honorifics, changed) prefix = r →
  r = Raise IndexError
  ∨ ∃ name', r = Ok (name', honorifics ++ [prefix], true)
      ∧ (String.length name' + String.length prefix ≤ String.length name)%nat.
Proof.
  intros Hstart <-. unfold honorific_step. rewrite Hstart.
  pose proof (pystr_startswith_length _ _ Hstart) as Hlen.
  pose proof (pystr_drop_length (String.length prefix) name) as Hdrop.
  destruct (PyStr.drop (String.length prefix) name) as [|c rest] eqn:Hrest;
    [by left|].
  right. cbn [PyStr.first_char mbind result_bind].
  destruct (decide (c = PyStr.char_of ".")).
  - eexists. split; [done|].
    pose proof (strip_length is_space (PyStr.drop 1 (String c rest))) as Hs.
    rewrite pystr_drop_length in Hs. simpl in *. lia.
  - eexists. split; [done|]. simpl in *. lia.
Qed.

(** The [for] loop over any list of prefixes, when it returns. *)
Lemma honorific_for_Ok prefixes : ∀ name honorifics changed name' honorifics' changed',
  for_result step (name, honorifics, changed) prefixes
  = Ok (name', honorifics', changed') →
  ∃ found,
    honorifics' = honorifics ++ found
    ∧ Forall (λ p, p ∈ prefixes) found
    ∧ (String.length name' + sum_list (String.length <$> found)
       ≤ String.length name)%nat
    ∧ changed' = changed || bool_decide (found ≠ [])
    ∧ (found = [] →
       name' = name
       ∧ Forall (λ p, PyStr.startswith name p = false) prefixes).
Proof.
  induction prefixes as [|prefix prefixes IH];
    intros name honorifics changed name' honorifics' changed' Hrun.
  - injection Hrun as <- <- <-. exists []. rewrite app_nil_r.
    split; [done|]. split; [constructor|]. split; [simpl; lia|].
    split; [by destruct changed|]. intros _. split; [done|constructor].
  - cbn [for_result] in Hrun.
    destruct (PyStr.startswith name prefix) eqn:Hstart.
    + destruct (honorific_step_hit name honorifics changed prefix _ Hstart eq_refl)
        as [Hraise|(name1 & Hstep & Hlen)]; rewrite ?Hraise, ?Hstep in Hrun;
        [done|].
      apply IH in Hrun as (found & -> & Hin & Hsum & -> & _).
      exists (prefix :: found). rewrite <- app_assoc. split; [done|].
      split; [|split; [|split]].
      * constructor; [by left|].
        eapply Forall_impl; [exact Hin|]. intros p Hp. by right.
      * change (sum_list (String.length <$> prefix :: found))
          with (String.length prefix + sum_list (String.length <$> found))%nat.
        lia.
      * by rewrite orb_true_r.
      * done.
    + rewrite honorific_step_miss in Hrun by done.
      apply IH in Hrun as (found & -> & Hin & Hsum & -> & Hnone).
      exists found. split; [done|]. split; [|split; [done|split; [done|]]].
      * eapply Forall_impl; [exact Hin|]. intros p Hp. by right.
      * intros Hnil. destruct (Hnone Hnil) as [-> Hall]. split; [done|].
        by constructor.
Qed.

Lemma honorific_for_exn prefixes : ∀ acc e,
  for_result step acc prefixes = Raise e → e = IndexError.
Proof.
  induction prefixes as [|prefix prefixes IH]; intros acc e Hrun; [done|].
  cbn [for_result] in Hrun. destruct acc as [[name honorifics] changed].
  destruct (PyStr.startswith name prefix) eqn:Hstart.
  - destruct (honorific_step_hit name honorifics changed prefix _ Hstart eq_refl)
      as [Hraise|(name1 & Hstep & _)]; rewrite ?Hraise, ?Hstep in Hrun.
    + by injection Hrun as <-.
    + by eapply IH.
  - rewrite honorific_step_miss in Hrun by done. by eapply IH.
Qed.

Lemma honorific_prefixes_nonempty :
  Forall (λ p, (0 < String.length p)%nat) honorific_prefixes.
Proof. repeat constructor. Qed.

Lemma found_shrinks found :
  Forall (λ p, p ∈ honorific_prefixes) found → found ≠ [] →
  (0 < sum_list (String.length <$> found))%nat.
Proof.
  intros Hin Hne. destruct found as [|p found]; [done|].
  apply Forall_cons in Hin as [Hp _]. simpl.
  pose proof honorific_prefixes_nonempty as Hall.
  rewrite Forall_forall in Hall. specialize (Hall p Hp). lia.
Qed.

(** The [while] loop, when it returns. *)
Lemma honorific_loop_Ok fuel : ∀ name honorifics name' honorifics',
  honorific_loop is_space fuel name honorifics = Some (Ok (name', honorifics')) →
  ∃ found,
    honorifics' = honorifics ++ found
    ∧ Forall (λ p, p ∈ honorific_prefixes) found
    ∧ (String.length name' + sum_list (String.length <$> found)
       ≤ String.length name)%nat
    ∧ Forall (λ p, PyStr.startswith name' p = false) honorific_prefixes
    ∧ (found = [] → name' = name).
Proof.
  induction fuel as [|fuel IH]; intros name honorifics name' honorifics' Hrun;
    [done|].
  cbn [honorific_loop] in Hrun. unfold honorific_pass in Hrun.
  destruct (for_result _ _ _) as [[[name1 honorifics1] changed]|] eqn:Hpass;
    [|done].
  apply honorific_for_Ok in Hpass as (found & -> & Hin & Hsum & -> & Hnone).
  cbn [orb] in Hrun. case_bool_decide as Hfound.
  - apply IH in Hrun as (found' & -> & Hin' & Hsum' & Hfix & _).
    exists (found ++ found'). rewrite app_assoc. split; [done|].
    split; [by apply Forall_app|]. split; [|split; [done|]].
    + rewrite sum_lengths_app. lia.
    + by intros [-> _]%app_eq_nil.
  - injection Hrun as <- <-. subst found.
    destruct (Hnone eq_refl) as [-> Hall]. exists []. rewrite app_nil_r.
    split; [done|]. split; [constructor|]. split; [simpl; lia|]. done.
Qed.

Lemma honorific_loop_exn fuel : ∀ name honorifics e,
  honorific_loop is_space fuel name honorifics = Some (Raise e) →
  e = IndexError.
Proof.
  induction fuel as [|fuel IH]; intros name honorifics e Hrun; [done|].
  cbn [honorific_loop] in Hrun. unfold honorific_pass in Hrun.
  destruct (for_result _ _ _) as [[[name1 honorifics1] changed]|e'] eqn:Hpass.
  - destruct changed; [by eapply IH|done].
  - injection Hrun as <-. by eapply honorific_for_exn.
Qed.

(** Every changing round shortens the name, so the loop is over before
    the fuel is. *)
Lemma honorific_loop_total fuel : ∀ name honorifics,
  (String.length name < fuel)%nat →
  is_Some (honorific_loop is_space fuel name honorifics).
Proof.
  induction fuel as [|fuel IH]; intros name honorifics Hfuel; [lia|].
  cbn [honorific_loop]. unfold honorific_pass.
  destruct (for_result _ _ _) as [[[name1 honorifics1] changed]|e] eqn:Hpass;
    [|by eexists].
  apply honorific_for_Ok in Hpass as (found & -> & Hin & Hsum & -> & _).
  cbn [orb]. case_bool_decide as Hfound; [|by eexists].
  apply IH. pose proof (found_shrinks found Hin Hfound). lia.
Qed.

End Honorifics.


Section HonorificTheorems.

Variable is_space : Ascii.ascii → bool.

Lemma strip_honorifics_cases name :
  strip_honorifics is_space name = Some (Raise IndexError)
  ∨ ∃ name' honorifics,
      strip_honorifics is_space name = Some (Ok (name', honorifics)).
Proof.
  unfold strip_honorifics.
  destruct (honorific_loop_total is_space (S (String.length name)) name [])
    as [[[name' honorifics]|e] Hrun]; [lia| |].
  - right. by exists name', honorifics.
  - left. rewrite Hrun. by apply honorific_loop_exn in Hrun as ->.
Qed.

(** The [while] loop of [strip_honorifics] always ends, and in one of
    two ways: with a name and its honorifics, or with the [IndexError]
    of reading [name[0]] on a name that a stripped prefix left empty. *)
Theorem strip_honorifics_ends name :
  strip_honorifics is_space name = Some (Raise IndexError)
  ∨ ∃ name' honorifics,
      strip_honorifics is_space name = Some (Ok (name', honorifics)).
Proof. apply strip_honorifics_cases. Qed.

(** The name that comes back starts with none of the honorifics. *)
Theorem stripped_name_has_no_honorific name name' honorifics :
  strip_honorifics is_space name = Some (Ok (name', honorifics)) →
  ∀ prefix, prefix ∈ honorific_prefixes →
    PyStr.startswith name' prefix = false.
Proof.
  intros (found & _ & _ & _ & Hfix & _)%honorific_loop_Ok.
  by apply Forall_forall.
Qed.

(** The honorifics that come back are entries of the table, and the
    name is shorter than the original by at least their total length;
    without any honorific the name is the original. *)
Theorem honorifics_accounted name name' honorifics :
  strip_honorifics is_space name = Some (Ok (name', honorifics)) →
  Forall (λ p, p ∈ honorific_prefixes) honorifics
  ∧ (String.length name' + sum_list (String.length <$> honorifics)
     ≤ String.length name)%nat
  ∧ (honorifics = [] → name' = name).
Proof.
  intros (found & Hfound & Hin & Hsum & _ & Hnone)%honorific_loop_Ok.
  cbn [app] in Hfound. by subst found.
Qed.

Lemma honorific_for_miss prefixes acc :
  Forall (λ p, PyStr.startswith acc.1.1 p = false) prefixes →
  for_result (honorific_step is_space) acc prefixes = Ok acc.
Proof.
  induction prefixes as [|p prefixes IH]; intros Hall; [done|].
  apply Forall_cons in Hall as [Hp Hall]. cbn [for_result].
  destruct acc as [[name honorifics] changed].
  rewrite honorific_step_miss by done. by apply IH.
Qed.

(** A name comes back untouched, with no honorific, exactly when it
    starts with none of them. *)
Theorem strip_honorifics_unchanged_iff name :
  strip_honorifics is_space name = Some (Ok (name, []))
  ↔ Forall (λ p, PyStr.startswith name p = false) honorific_prefixes.
Proof.
  split.
  - by intros (found & _ & _ & _ & Hfix & _)%honorific_loop_Ok.
  - intros Hall. unfold strip_honorifics. cbn [honorific_loop].
    unfold honorific_pass. by rewrite honorific_for_miss.
Qed.

(** A name that is nothing but an honorific raises [IndexError]: the
    prefix is stripped and [name[0]] is read on the empty rest.  The
    one exception is ["mrs"], from which ["mr"] is taken first. *)
Theorem bare_honorific_raises prefix :
  prefix ∈ honorific_prefixes → prefix ≠ "mrs" →
  strip_honorifics is_space prefix = Some (Raise IndexError).
Proof.
  intros Hin Hne. unfold honorific_prefixes in Hin.
  repeat (apply elem_of_cons in Hin as [->|Hin]; [done || reflexivity|]).
  by apply elem_of_nil in Hin.
Qed.

End HonorificTheorems.

Lemma stripped_name_has_no_honorific_witness :
  PyStr.startswith "john smith" "dr" = false.
Proof.
  apply (stripped_name_has_no_honorific Ascii.is_space "prof. dr. john smith"
           "john smith" ["prof"; "dr"]).
  - by vm_compute.
  - set_solver.
Defined.

Lemma honorifics_accounted_witness :
  Forall (λ p, p ∈ honorific_prefixes) ["prof"; "dr"]
  ∧ (String.length "john smith"
     + sum_list (String.length <$> ["prof"; "dr"])
     ≤ String.length "prof. dr. john smith")%nat
  ∧ (["prof"; "dr"] = [] → "john smith" = "prof. dr. john smith").
Proof.
  apply (honorifics_accounted Ascii.is_space "prof. dr. john smith").
  by vm_compute.
Defined.

Lemma bare_honorific_raises_witness :
  strip_honorifics Ascii.is_space "mister" = Some (Raise IndexError).
Proof.
  apply (bare_honorific_raises Ascii.is_space "mister").
  - set_solver.
  - discriminate.
Defined.

(** ["mrs"] itself loses ["mr"] and keeps its last letter. *)
Example mrs_loses_mr :
  strip_honorifics Ascii.is_space "mrs" = Some (Ok ("s", ["mr"])).
Proof. reflexivity. Qed.

(** ** [fix_name] *)

Section FixName.

Variable lower : string → string.
Variable is_space : Ascii.ascii → bool.

(** [fix_name] fails only as [strip_honorifics] does on the lower-cased
    name; the [ValueError] of a name without comma is swallowed.  When
    it returns, the honorifics are those of [strip_honorifics]. *)
Theorem fix_name_outcome name :
  (strip_honorifics is_space (lower name) = Some (Raise IndexError)
   ∧ fix_name lower is_space name = Some (Raise IndexError))
  ∨ ∃ stripped honorifics fixed,
      strip_honorifics is_space (lower name) = Some (Ok (stripped, honorifics))
      ∧ fix_name lower is_space name = Some (Ok (fixed, honorifics)).
Proof.
  unfold fix_name.
  destruct (strip_honorifics_cases is_space (lower name))
    as [Hraise|(stripped & honorifics & Hok)].
  - left. by rewrite Hraise.
  - right. rewrite Hok. by eexists _, _, _.
Qed.

(** The name [fix_name] returns has no white space at either end. *)
Theorem fix_name_stripped name fixed honorifics :
  fix_name lower is_space name = Some (Ok (fixed, honorifics)) →
  PyStr.lstrip is_space fixed = fixed ∧ PyStr.rstrip is_space fixed = fixed.
Proof.
  unfold fix_name.
  destruct (strip_honorifics is_space (lower name)) as [[[stripped hs]|]|];
    [|done..].
  intros [= <- _]. apply strip_stripped.
Qed.

(** A name of the form [last,first] is turned around at its first
    comma: the result is [first last], each part stripped. *)
Theorem fix_name_swaps_at_first_comma name last_name first_name honorifics :
  strip_honorifics is_space (lower name)
  = Some (Ok (last_name +:+ "," +:+ first_name, honorifics)) →
  (∀ a b, last_name ≠ a +:+ "," +:+ b) →
  fix_name lower is_space name
  = Some (Ok (PyStr.strip is_space
                (PyStr.strip is_space first_name +:+ " "
                   +:+ PyStr.strip is_space last_name),
              honorifics)).
Proof.
  intros Hstrip Hno. unfold fix_name. rewrite Hstrip.
  by rewrite split_comma_app.
Qed.

(** Without a comma the name is only stripped. *)
Theorem fix_name_without_comma name stripped honorifics :
  strip_honorifics is_space (lower name) = Some (Ok (stripped, honorifics)) →
  (∀ a b, stripped ≠ a +:+ "," +:+ b) →
  fix_name lower is_space name
  = Some (Ok (PyStr.strip is_space stripped, honorifics)).
Proof.
  intros Hstrip Hno. unfold fix_name. rewrite Hstrip.
  destruct (PyStr.split_comma stripped) as [[before after]|] eqn:Hsplit;
    [|done].
  exfalso. clear Hstrip. revert before after Hsplit Hno.
  induction stripped as [|c s IH]; intros before after Hsplit Hno; [done|].
  cbn [PyStr.split_comma] in Hsplit.
  destruct (decide (c = PyStr.char_of ",")) as [->|Hc].
  - by destruct (Hno "" s).
  - destruct (PyStr.split_comma s) as [[b a]|] eqn:Hs; [|done].
    eapply IH; [done|]. intros a' b' ->. by destruct (Hno (String c a') b').
Qed.

End FixName.

Lemma fix_name_stripped_witness :
  PyStr.lstrip Ascii.is_space "john , jr smith" = "john , jr smith"
  ∧ PyStr.rstrip Ascii.is_space "john , jr smith" = "john , jr smith".
Proof.
  apply (fix_name_stripped Demo.lower Ascii.is_space "Dr. Smith,  John , Jr  "
           "john , jr smith" ["dr"]).
  by vm_compute.
Defined.

Lemma fix_name_swaps_at_first_comma_witness :
  fix_name Demo.lower Ascii.is_space "Dr. Smith,  John , Jr  "
  = Some (Ok (PyStr.strip Ascii.is_space
                (PyStr.strip Ascii.is_space "  john , jr" +:+ " "
                   +:+ PyStr.strip Ascii.is_space "smith"),
              ["dr"])).
Proof.
  apply (fix_name_swaps_at_first_comma Demo.lower Ascii.is_space
           "Dr. Smith,  John , Jr  " "smith" "  john , jr" ["dr"]).
  - by vm_compute.
  - apply split_comma_None. reflexivity.
Defined.

Lemma fix_name_without_comma_witness :
  fix_name Demo.lower Ascii.is_space "  Ada Lovelace "
  = Some (Ok (PyStr.strip Ascii.is_space "  ada lovelace ", [])).
Proof.
  apply (fix_name_without_comma Demo.lower Ascii.is_space "  Ada Lovelace "
           "  ada lovelace " []).
  - by vm_compute.
  - apply split_comma_None. reflexivity.
Defined.


(** * The Wikidata lookup *)

Section Lookup.

Variable lower : string → string.
Variable call_api : string → string → option (list Wikidata.hit).

Lemma search_hits_passed name pre hits :
  Forall (passed_over lower name) pre →
  search_hits lower name (pre ++ hits) = search_hits lower name hits.
Proof.
  induction pre as [|r pre IH]; intros Hpre; [done|].
  apply Forall_cons in Hpre as [(label & Hlabel & Hne) Hpre].
  cbn [app search_hits]. rewrite Hlabel, decide_False by done. by apply IH.
Qed.

Lemma search_hits_inv name hits :
  (∃ pre r post label,
     hits = pre ++ r :: post ∧ Forall (passed_over lower name) pre
     ∧ Wikidata.label r = Some label ∧ lower label = lower name
     ∧ search_hits lower name hits
       = from_option Wikidata.Returns Wikidata.KeyError (Wikidata.id r))
  ∨ (∃ pre r post,
       hits = pre ++ r :: post ∧ Forall (passed_over lower name) pre
       ∧ Wikidata.label r = None
       ∧ search_hits lower name hits = Wikidata.AttributeError)
  ∨ (Forall (passed_over lower name) hits
     ∧ search_hits lower name hits = Wikidata.Returns None).
Proof.
  induction hits as [|r hits IH].
  - right. right. by split.
  - cbn [search_hits]. destruct (Wikidata.label r) as [label|] eqn:Hlabel.
    + destruct (decide (lower label = lower name)) as [Heq|Hne].
      * left. exists [], r, hits, label. by destruct (Wikidata.id r).
      * assert (passed_over lower name r) as Hr by (by exists label).
        destruct IH as [(pre & r' & post & l' & -> & Hpre & ? & ? & ?)
                       |[(pre & r' & post & -> & Hpre & ? & ?)|[Hall ?]]].
        -- left. exists (r :: pre), r', post, l'. by repeat split; try constructor.
        -- right. left. exists (r :: pre), r', post.
           by repeat split; try constructor.
        -- right. right. by split; [constructor|].
    + right. left. by exists [], r, hits.
Qed.

Lemma search_hits_match name pre r post label :
  Forall (passed_over lower name) pre →
  Wikidata.label r = Some label → lower label = lower name →
  search_hits lower name (pre ++ r :: post)
  = from_option Wikidata.Returns Wikidata.KeyError (Wikidata.id r).
Proof.
  intros Hpre Hl Heq. rewrite search_hits_passed by done. cbn [search_hits].
  rewrite Hl, decide_True by done. by destruct (Wikidata.id r).
Qed.

(** A first match is unique: two ways of cutting the entries at the
    first entry whose label is the name cut at the same entry. *)
Lemma first_match_unique name pre r post label pre' r' post' label' :
  pre ++ r :: post = pre' ++ r' :: post' →
  Forall (passed_over lower name) pre →
  Wikidata.label r = Some label → lower label = lower name →
  Forall (passed_over lower name) pre' →
  Wikidata.label r' = Some label' → lower label' = lower name →
  r = r'.
Proof.
  revert pre'. induction pre as [|x pre IH]; intros pre' Heq Hpre Hl He Hpre' Hl' He'.
  - destruct pre' as [|x' pre']; [by injection Heq|].
    injection Heq as <- _. apply Forall_cons in Hpre' as [(l0 & Hl0 & Hne) _].
    rewrite Hl in Hl0. injection Hl0 as <-. done.
  - apply Forall_cons in Hpre as [(l0 & Hl0 & Hne) Hpre].
    destruct pre' as [|x' pre'].
    + injection Heq as -> _. rewrite Hl' in Hl0. injection Hl0 as <-. done.
    + injection Heq as <- Heq. apply Forall_cons in Hpre' as [_ Hpre'].
      by eapply IH.
Qed.

(** The lookup returns an id exactly when some entry has the name as
    its label, ignoring case, every entry before it has another label,
    and that entry has an id: the id returned is the one of the first
    entry that matches, and nothing after it is read. *)
Theorem get_wikidata_id_first_match name cache language wid :
  get_wikidata_id lower call_api name cache language
  = Wikidata.Returns (Some wid)
  ↔ ∃ pre r post label,
      default [] (call_api name language) = pre ++ r :: post
      ∧ Forall (passed_over lower name) pre
      ∧ Wikidata.label r = Some label ∧ lower label = lower name
      ∧ Wikidata.id r = Some (Some wid).
Proof.
  unfold get_wikidata_id.
  generalize (default [] (call_api name language)). intros hits. split.
  - intros Hrun.
    destruct (search_hits_inv name hits)
      as [(pre & r & post & label & -> & Hpre & Hl & Heq & Hres)
         |[(pre & r & post & -> & Hpre & ? & Hres)|[Hall Hres]]];
      rewrite Hres in Hrun; [|done..].
    exists pre, r, post, label. repeat split; try done.
    by destruct (Wikidata.id r) as [w|]; simplify_eq/=.
  - intros (pre & r & post & label & -> & Hpre & Hl & Heq & Hid).
    rewrite (search_hits_match _ _ _ _ label) by done. by rewrite Hid.
Qed.

(** The lookup returns [None] in exactly two cases: every entry has a
    label and none of the labels is the name (an answer without
    ['search'] included), so that the loop runs to its [else]; or the
    first entry whose label is the name has the value [None] under
    ['id'], which [return r['id']] hands back. *)
Theorem get_wikidata_id_none name cache language :
  get_wikidata_id lower call_api name cache language = Wikidata.Returns None
  ↔ Forall (passed_over lower name) (default [] (call_api name language))
    ∨ ∃ pre r post label,
        default [] (call_api name language) = pre ++ r :: post
        ∧ Forall (passed_over lower name) pre
        ∧ Wikidata.label r = Some label ∧ lower label = lower name
        ∧ Wikidata.id r = Some None.
Proof.
  unfold get_wikidata_id.
  generalize (default [] (call_api name language)). intros hits. split.
  - intros Hrun.
    destruct (search_hits_inv name hits)
      as [(pre & r & post & label & -> & Hpre & Hl & Heq & Hres)
         |[(pre & r & post & -> & Hpre & ? & Hres)|[Hall Hres]]];
      rewrite Hres in Hrun; [|done|by left].
    right. exists pre, r, post, label. repeat split; try done.
    by destruct (Wikidata.id r) as [w|]; simplify_eq/=.
  - intros [Hall|(pre & r & post & label & -> & Hpre & Hl & Heq & Hid)].
    + rewrite <- (app_nil_r hits). by rewrite search_hits_passed.
    + rewrite (search_hits_match _ _ _ _ label) by done. by rewrite Hid.
Qed.

(** It raises [KeyError] exactly when the first entry whose label is
    the name has no ['id'] key. *)
Lemma get_wikidata_id_key_error name cache language :
  get_wikidata_id lower call_api name cache language = Wikidata.KeyError
  ↔ ∃ pre r post label,
      default [] (call_api name language) = pre ++ r :: post
      ∧ Forall (passed_over lower name) pre
      ∧ Wikidata.label r = Some label ∧ lower label = lower name
      ∧ Wikidata.id r = None.
Proof.
  unfold get_wikidata_id.
  generalize (default [] (call_api name language)). intros hits. split.
  - intros Hrun.
    destruct (search_hits_inv name hits)
      as [(pre & r & post & label & -> & Hpre & Hl & Heq & Hres)
         |[(pre & r & post & -> & Hpre & ? & Hres)|[Hall Hres]]];
      rewrite Hres in Hrun; [|done..].
    exists pre, r, post, label. repeat split; try done.
    by destruct (Wikidata.id r) as [w|]; simplify_eq/=.
  - intros (pre & r & post & label & -> & Hpre & Hl & Heq & Hid).
    rewrite (search_hits_match _ _ _ _ label) by done. by rewrite Hid.
Qed.

End Lookup.

(** The two ways to [None], and an id, on concrete answers. *)
Example get_wikidata_id_examples :
  let hit l i := {| Wikidata.label := l; Wikidata.id := i |} in
  get_wikidata_id Demo.lower
    (λ _ _, Some [hit (Some "Bob") (Some (Some "Q2"));
                  hit (Some "ADA") (Some None);
                  hit (Some "ada") (Some (Some "Q1"))]) "Ada" true "en"
  = Wikidata.Returns None
  ∧ get_wikidata_id Demo.lower
      (λ _ _, Some [hit (Some "Bob") (Some (Some "Q2"))]) "Ada" true "en"
    = Wikidata.Returns None
  ∧ get_wikidata_id Demo.lower (λ _ _, None) "Ada" true "en"
    = Wikidata.Returns None
  ∧ get_wikidata_id Demo.lower
      (λ _ _, Some [hit (Some "Bob") (Some (Some "Q2"));
                    hit (Some "ADA") (Some (Some "Q1"));
                    hit None None]) "Ada" true "en"
    = Wikidata.Returns (Some "Q1")
  ∧ get_wikidata_id Demo.lower
      (λ _ _, Some [hit (Some "ADA") None]) "Ada" true "en"
    = Wikidata.KeyError
  ∧ get_wikidata_id Demo.lower
      (λ _ _, Some [hit None (Some (Some "Q1"))]) "Ada" true "en"
    = Wikidata.AttributeError.
Proof. repeat split; by vm_compute. Qed.

(** ** [start] *)

(** On an extractor built by [__init__], [start] and [process_sentence]
    calls, [start] brings back the very state [__init__] gave for the
    same language, window width and collapse flag. *)
Theorem start_resets_to_init lower TTPosTagger self :
  reachable lower TTPosTagger self →
  start self
  = init TTPosTagger (language self) (window_width self) (collapse_fes self).
Proof.
  intros Hreach.
  pose proof (reachable_tagger _ _ _ Hreach) as Htagger.
  pose proof (reachable_unk_feature _ _ _ Hreach) as Hunk.
  destruct self. cbn in *. by subst.
Qed.

Lemma start_resets_to_init_witness :
  start (process_sentence Demo.lower "Ada met Bob" [("Who", Some "bob")]
           true ∅ (Demo.extractor 1 false)).2
  = Demo.extractor 1 false.
Proof.
  apply (start_resets_to_init Demo.lower (λ _, Demo.demo_tagger)
           (process_sentence Demo.lower "Ada met Bob" [("Who", Some "bob")]
              true ∅ (Demo.extractor 1 false)).2).
  apply reachable_process. apply reachable_init.
Defined.

(** ** The split mode on one chunk *)

Lemma split_relabels_span_witness :
  let self := Demo.extractor 1 false in
  let sentence := "Ada met Bob" in
  let earlier := [("Verb", Some "met")] in
  let tagged := [Tag3 "Ada" "W" "ada"; Tag4 "met" "W" "ENT" "Verb";
                 Tag3 "Bob" "W" "bob"] in
  ∃ pre span post,
    tagged = pre ++ span ++ post
    ∧ Py.len pre = 0 - Py.len (tokenize (tagger self) "ada") + 1
    ∧ matches Demo.lower (tokenize (tagger self) "ada") span
    ∧ (Forall (λ t, tok_len t = 3) span →
       sentence_to_tokens Demo.lower self sentence
         (earlier ++ [("Who", Some "ada")])
       = Ok (pre ++ (relabel "Who" <$> span) ++ post)
       ∧ ∀ later,
           sentence_to_tokens Demo.lower self sentence
             (earlier ++ ("Who", Some "ada") :: later)
           = for_result (align_fe Demo.lower self)
               (pre ++ (relabel "Who" <$> span) ++ post) later)
    ∧ (Exists (λ t, tok_len t = 4) span →
       ∀ later,
         sentence_to_tokens Demo.lower self sentence
           (earlier ++ ("Who", Some "ada") :: later)
         = Raise ValueError).
Proof.
  apply (split_relabels_span Demo.lower (Demo.extractor 1 false)
           "Ada met Bob" [("Verb", Some "met")] "Who" "ada").
  - reflexivity.
  - by vm_compute.
  - by vm_compute.
  - by vm_compute.
Defined.

(** Both cases on the code: a raw span is relabelled, a span over a
    token of an earlier entry raises. *)
Example split_relabels_span_example :
  sentence_to_tokens Demo.lower (Demo.extractor 1 false) "Ada met Bob"
    [("Verb", Some "met"); ("Who", Some "ada")]
  = Ok [Tag4 "Ada" "W" "ENT" "Who"; Tag4 "met" "W" "ENT" "Verb";
        Tag3 "Bob" "W" "bob"]
  ∧ sentence_to_tokens Demo.lower (Demo.extractor 1 false) "Ada met Bob"
      [("Verb", Some "met"); ("Who", Some "met bob"); ("Whom", Some "ada")]
    = Raise ValueError.
Proof. split; by vm_compute. Qed.
